(** * win32ctypes.pywin32.win32cred: credential marshalling

  A shallow embedding of [src/win32ctypes/pywin32/win32cred.py] and of the
  part of [ctypes] it drives, with the properties of the credential codec
  and of the four store operations.

  Conventions.
  - A Python [str] is the list of its code points, a Python [bytes] the
    list of its bytes, both as [Z].
  - Native memory is little-endian and [wchar_t] is 16 bits wide, as on
    every Windows target of the module.
  - A pointer carries the bytes that can be read from the address it holds.
  - Calls of the native primitives are recorded, in order, in a history;
    what a primitive answers may depend on the history so far. *)

From Stdlib Require Import ZArith List Lia.
From stdpp Require Import base gmap strings list.

Local Open Scope Z_scope.

(** ** Text and wide characters *)

Module Wide.

(** [sizeof(ctypes.c_wchar)] on Windows. *)
Definition sizeof_c_wchar : Z := 2.

Definition is_high (u : Z) : bool := (55296 <=? u) && (u <=? 56319).
Definition is_low (u : Z) : bool := (56320 <=? u) && (u <=? 57343).

(** A code point as [wchar_t] units: what [PyUnicode_AsWideChar] stores
    when [wchar_t] has 16 bits (a pair of surrogates above U+FFFF). *)
Definition units_of_codepoint (c : Z) : list Z :=
  if c <=? 65535 then [c]
  else [55296 + Z.shiftr (c - 65536) 10; 56320 + Z.land (c - 65536) 1023].

Definition as_wide_char (s : list Z) : list Z := flat_map units_of_codepoint s.

(** [PyUnicode_FromWideChar] for 16-bit [wchar_t]: a high surrogate
    followed by a low one is one code point, any other unit is itself. *)
Fixpoint from_wide_char (us : list Z) : list Z :=
  match us with
  | [] => []
  | h :: rest =>
      match rest with
      | l :: rest' =>
          if is_high h && is_low l
          then (65536 + (h - 55296) * 1024 + (l - 56320)) :: from_wide_char rest'
          else h :: from_wide_char rest
      | [] => [h]
      end
  end.

(** The two bytes of a unit in memory. *)
Definition unit_bytes (u : Z) : list Z := [Z.land u 255; Z.shiftr u 8].

Definition array_bytes (us : list Z) : list Z := flat_map unit_bytes us.

(** [wcslen] and copy: the units before the first NUL unit; [None] when
    the readable memory ends before a NUL is met. *)
Fixpoint wcs (mem : list Z) : option (list Z) :=
  match mem with
  | lo :: hi :: rest =>
      let u := lo + 256 * hi in
      if u =? 0 then Some [] else cons u <$> wcs rest
  | _ => None
  end.

(** [ctypes.sizeof] of an array of [c_wchar]. *)
Definition sizeof_array (arr : list Z) : Z := sizeof_c_wchar * Z.of_nat (length arr).

(** The UTF-16LE encoding of a text, as [str.encode('utf-16-le')] defines
    it: two bytes per code point of the basic plane, low byte first, and
    four (a surrogate pair) above it. *)
Definition utf_16_le (s : list Z) : list Z :=
  flat_map
    (fun c =>
       if c <? 65536 then [c mod 256; c / 256]
       else
         let v := c - 65536 in
         let hi := 55296 + v / 1024 in
         let lo := 56320 + v mod 1024 in
         [hi mod 256; hi / 256; lo mod 256; lo / 256])
    s.

(** A code point that is a character: in range and not a surrogate. *)
Definition scalar (c : Z) : Prop :=
  0 <= c <= 1114111 /\ ~ (55296 <= c <= 57343).

Definition scalarb (c : Z) : bool :=
  (0 <=? c) && (c <=? 1114111) && negb ((55296 <=? c) && (c <=? 57343)).

Definition bmp (c : Z) : Prop := 0 <= c <= 65535.

(** A value that fits a [wchar_t]. *)
Definition unit16 (u : Z) : Prop := 0 <= u <= 65535.

End Wide.

(** ** Python values and exceptions *)

Inductive pyval :=
| PyNone
| PyInt (z : Z)
| PyStr (s : list Z)
| PyBytes (b : list Z).

(** The argument of an exception: a plain message, or a format string
  applied to a set of keys ([str.format] of a Python [set]). *)
Inductive message :=
| Msg (s : string)
| Format (s : string) (arg : gset string).

Inductive exn :=
| ValueError (m : message)
| TypeError
| AttributeError (name : string)
| KeyError (key : string)
| UnicodeDecodeError
| SystemError
| WindowsError (winerror : Z) (function : string)
| pywintypes_error (winerror : Z) (function : string)
| AccessViolation. (* [OSError]: access violation reading an address *)

(** A computation that returns or raises. *)
Module Res.
Definition bind {A B} (r : exn + A) (k : A -> exn + B) : exn + B :=
  match r with inl e => inl e | inr a => k a end.

(** A [for] loop that threads an accumulator and stops at the first
    exception. *)
Fixpoint foldM {A K} (f : A -> K -> exn + A) (a : A) (l : list K) : exn + A :=
  match l with
  | [] => inr a
  | k :: l => bind (f a k) (fun a' => foldM f a' l)
  end.

(** A list comprehension whose element expression may raise. *)
Fixpoint mapM {A B} (f : A -> exn + B) (l : list A) : exn + list B :=
  match l with
  | [] => inr []
  | x :: l => bind (f x) (fun y => bind (mapM f l) (fun ys => inr (y :: ys)))
  end.

(** [filter] with a predicate that may raise. *)
Fixpoint filterM {A} (p : A -> exn + bool) (l : list A) : exn + list A :=
  match l with
  | [] => inr []
  | x :: l =>
      bind (p x) (fun b =>
      bind (filterM p l) (fun ys => inr (if b then x :: ys else ys)))
  end.
End Res.

(** ** The part of ctypes the module drives *)

Module Ctypes.
Import Wide.

(** A pointer field. [Addr a] is a bare address of which nothing is known
    to be readable ([Addr 0] is NULL); [Ptr mem] is the address of a live
    buffer, with the bytes readable from that address on. *)
Inductive pointer :=
| Addr (a : Z)
| Ptr (mem : list Z).

Definition NULL : pointer := Addr 0.

(** Bytes of a pointer on the 64-bit build. *)
Definition sizeof_pointer : nat := 8%nat.

(** Modelled from the spec: the declaration of [_advapi32.CREDENTIAL] is
    not among the sources. The spec calls it the fixed-layout native record
    understood by the platform's credential store primitives; that record is
    CREDENTIALW of wincred.h: [DWORD] for Flags, Type, CredentialBlobSize,
    Persist and AttributeCount, [FILETIME] for LastWritten, [LPBYTE] for
    CredentialBlob and [LPWSTR] for the names. *)
Record CREDENTIAL := {
  c_Flags : Z;
  c_Type : Z;
  c_TargetName : pointer;
  c_Comment : pointer;
  c_LastWritten : Z;
  c_CredentialBlobSize : Z;
  c_CredentialBlob : pointer;
  c_Persist : Z;
  c_AttributeCount : Z;
  c_Attributes : pointer;
  c_TargetAlias : pointer;
  c_UserName : pointer
}.

(** [POINTER(CREDENTIAL)] and [POINTER(POINTER(CREDENTIAL))]: [None] is a
    NULL pointer, otherwise the record, or the array of record pointers,
    found at the address. *)
Abbreviation PCREDENTIAL := (option CREDENTIAL).
Abbreviation PPCREDENTIAL := (option (list (option CREDENTIAL))).

(** [ctypes] masks an integer stored in a [DWORD] field. *)
Definition DWORD (z : Z) : Z := z mod 2 ^ 32.

(** The integer made of [n] copies of the byte [c mod 256]. *)
Definition fill (n : nat) (c : Z) : Z :=
  fold_right (fun b acc => b + 256 * acc) 0 (repeat (c mod 256) n).

(** [ctypes.memset(pointer(c_creds), c, sizeof(c_creds))]: every byte of
    the record, hence of each of its fields, becomes [c mod 256]. *)
Definition memset_CREDENTIAL (c_creds : CREDENTIAL) (c : Z) : CREDENTIAL :=
  {| c_Flags := fill 4 c;
     c_Type := fill 4 c;
     c_TargetName := Addr (fill sizeof_pointer c);
     c_Comment := Addr (fill sizeof_pointer c);
     c_LastWritten := fill 8 c;
     c_CredentialBlobSize := fill 4 c;
     c_CredentialBlob := Addr (fill sizeof_pointer c);
     c_Persist := fill 4 c;
     c_AttributeCount := fill 4 c;
     c_Attributes := Addr (fill sizeof_pointer c);
     c_TargetAlias := Addr (fill sizeof_pointer c);
     c_UserName := Addr (fill sizeof_pointer c) |}.

(** The record whose bytes are all zero; also what the constructor
    [CREDENTIAL()] returns. *)
Definition zeroed : CREDENTIAL :=
  {| c_Flags := 0; c_Type := 0; c_TargetName := NULL; c_Comment := NULL;
     c_LastWritten := 0; c_CredentialBlobSize := 0; c_CredentialBlob := NULL;
     c_Persist := 0; c_AttributeCount := 0; c_Attributes := NULL;
     c_TargetAlias := NULL; c_UserName := NULL |}.

Definition set_Type v c := {| c_Flags := c_Flags c; c_Type := v;
  c_TargetName := c_TargetName c; c_Comment := c_Comment c;
  c_LastWritten := c_LastWritten c; c_CredentialBlobSize := c_CredentialBlobSize c;
  c_CredentialBlob := c_CredentialBlob c; c_Persist := c_Persist c;
  c_AttributeCount := c_AttributeCount c; c_Attributes := c_Attributes c;
  c_TargetAlias := c_TargetAlias c; c_UserName := c_UserName c |}.
Definition set_TargetName v c := {| c_Flags := c_Flags c; c_Type := c_Type c;
  c_TargetName := v; c_Comment := c_Comment c;
  c_LastWritten := c_LastWritten c; c_CredentialBlobSize := c_CredentialBlobSize c;
  c_CredentialBlob := c_CredentialBlob c; c_Persist := c_Persist c;
  c_AttributeCount := c_AttributeCount c; c_Attributes := c_Attributes c;
  c_TargetAlias := c_TargetAlias c; c_UserName := c_UserName c |}.
Definition set_Comment v c := {| c_Flags := c_Flags c; c_Type := c_Type c;
  c_TargetName := c_TargetName c; c_Comment := v;
  c_LastWritten := c_LastWritten c; c_CredentialBlobSize := c_CredentialBlobSize c;
  c_CredentialBlob := c_CredentialBlob c; c_Persist := c_Persist c;
  c_AttributeCount := c_AttributeCount c; c_Attributes := c_Attributes c;
  c_TargetAlias := c_TargetAlias c; c_UserName := c_UserName c |}.
Definition set_CredentialBlobSize v c := {| c_Flags := c_Flags c; c_Type := c_Type c;
  c_TargetName := c_TargetName c; c_Comment := c_Comment c;
  c_LastWritten := c_LastWritten c; c_CredentialBlobSize := v;
  c_CredentialBlob := c_CredentialBlob c; c_Persist := c_Persist c;
  c_AttributeCount := c_AttributeCount c; c_Attributes := c_Attributes c;
  c_TargetAlias := c_TargetAlias c; c_UserName := c_UserName c |}.
Definition set_CredentialBlob v c := {| c_Flags := c_Flags c; c_Type := c_Type c;
  c_TargetName := c_TargetName c; c_Comment := c_Comment c;
  c_LastWritten := c_LastWritten c; c_CredentialBlobSize := c_CredentialBlobSize c;
  c_CredentialBlob := v; c_Persist := c_Persist c;
  c_AttributeCount := c_AttributeCount c; c_Attributes := c_Attributes c;
  c_TargetAlias := c_TargetAlias c; c_UserName := c_UserName c |}.
Definition set_Persist v c := {| c_Flags := c_Flags c; c_Type := c_Type c;
  c_TargetName := c_TargetName c; c_Comment := c_Comment c;
  c_LastWritten := c_LastWritten c; c_CredentialBlobSize := c_CredentialBlobSize c;
  c_CredentialBlob := c_CredentialBlob c; c_Persist := v;
  c_AttributeCount := c_AttributeCount c; c_Attributes := c_Attributes c;
  c_TargetAlias := c_TargetAlias c; c_UserName := c_UserName c |}.
Definition set_UserName v c := {| c_Flags := c_Flags c; c_Type := c_Type c;
  c_TargetName := c_TargetName c; c_Comment := c_Comment c;
  c_LastWritten := c_LastWritten c; c_CredentialBlobSize := c_CredentialBlobSize c;
  c_CredentialBlob := c_CredentialBlob c; c_Persist := c_Persist c;
  c_AttributeCount := c_AttributeCount c; c_Attributes := c_Attributes c;
  c_TargetAlias := c_TargetAlias c; c_UserName := v |}.

(** Storing a Python value in a [DWORD] field: an [int], masked to 32
    bits; anything else is a [TypeError]. *)
Definition to_DWORD (v : pyval) : exn + Z :=
  match v with
  | PyInt z => inr (DWORD z)
  | _ => inl TypeError
  end.

(** Storing a Python value in a [c_wchar_p] field: [None] is NULL, an
    [int] is taken as an address, a [str] is copied, NUL characters
    included, to a fresh buffer of [wchar_t] with a terminating NUL, which
    the record keeps alive. *)
Definition to_c_wchar_p (v : pyval) : exn + pointer :=
  match v with
  | PyNone => inr NULL
  | PyInt a => inr (Addr (a mod 2 ^ (8 * Z.of_nat sizeof_pointer)))
  | PyStr s => inr (Ptr (array_bytes (as_wide_char s ++ [0])))
  | PyBytes _ => inl TypeError
  end.

(** Reading a [c_wchar_p] field: [None] for NULL, else the text up to the
    first NUL unit. *)
Definition of_c_wchar_p (p : pointer) : exn + pyval :=
  match p with
  | Addr a => if a =? 0 then inr PyNone else inl AccessViolation
  | Ptr mem =>
      match wcs mem with
      | Some us => inr (PyStr (from_wide_char us))
      | None => inl AccessViolation
      end
  end.

(** [setattr(c_creds, key, value)] for the fields the module sets by
    name. *)
Definition setattr (c_creds : CREDENTIAL) (key : string) (value : pyval)
  : exn + CREDENTIAL :=
  if String.eqb key "Type" then
    Res.bind (to_DWORD value) (fun v => inr (set_Type v c_creds))
  else if String.eqb key "Persist" then
    Res.bind (to_DWORD value) (fun v => inr (set_Persist v c_creds))
  else if String.eqb key "TargetName" then
    Res.bind (to_c_wchar_p value) (fun p => inr (set_TargetName p c_creds))
  else if String.eqb key "UserName" then
    Res.bind (to_c_wchar_p value) (fun p => inr (set_UserName p c_creds))
  else if String.eqb key "Comment" then
    Res.bind (to_c_wchar_p value) (fun p => inr (set_Comment p c_creds))
  else inl (AttributeError key).

(** [getattr(c_creds, key)] for the same fields. *)
Definition getattr (c_creds : CREDENTIAL) (key : string) : exn + pyval :=
  if String.eqb key "Type" then inr (PyInt (c_Type c_creds))
  else if String.eqb key "Persist" then inr (PyInt (c_Persist c_creds))
  else if String.eqb key "TargetName" then of_c_wchar_p (c_TargetName c_creds)
  else if String.eqb key "UserName" then of_c_wchar_p (c_UserName c_creds)
  else if String.eqb key "Comment" then of_c_wchar_p (c_Comment c_creds)
  else inl (AttributeError key).

(** [ctypes.create_unicode_buffer(init)]: for a [str], an array of
    [c_wchar] holding its units and a terminating NUL; for an [int], an
    array of that many NUL units. *)
Definition create_unicode_buffer (init : pyval) : exn + list Z :=
  match init with
  | PyStr s => inr (as_wide_char s ++ [0])
  | PyInt n => if n <? 0 then inl (ValueError (Msg "Array length must be >= 0"))
               else inr (repeat 0 (Z.to_nat n))
  | _ => inl TypeError
  end.

(** [ctypes.cast(blob_data, LPBYTE)]: the address of the array, seen as
    bytes. *)
Definition cast_LPBYTE (arr : list Z) : pointer := Ptr (array_bytes arr).

(** [p.contents]: the record a pointer points to; a NULL pointer raises
    [ValueError]. *)
Definition contents (p : PCREDENTIAL) : exn + CREDENTIAL :=
  match p with
  | Some c => inr c
  | None => inl (ValueError (Msg "NULL pointer access"))
  end.

(** [pp[index]]: the element of the array a pointer points to; outside
    the readable array the access is a violation. *)
Definition index (pp : PPCREDENTIAL) (i : nat) : exn + PCREDENTIAL :=
  match pp with
  | None => inl (ValueError (Msg "NULL pointer access"))
  | Some arr =>
      match arr !! i with
      | Some p => inr p
      | None => inl AccessViolation
      end
  end.

(** Modelled from the spec: [_common._PyBytes_FromStringAndSize] is not
    among the sources. It reads exactly [size] bytes starting at the blob
    pointer and stores them as an opaque byte sequence; no byte is read
    when [size] is 0, a negative [size] is refused, and reading past the
    readable memory is a violation. *)
Definition _PyBytes_FromStringAndSize (p : pointer) (size : Z) : exn + pyval :=
  if size =? 0 then inr (PyBytes [])
  else if size <? 0 then inl SystemError
  else
    match p with
    | Addr _ => inl AccessViolation
    | Ptr mem =>
        if size <=? Z.of_nat (length mem)
        then inr (PyBytes (take (Z.to_nat size) mem))
        else inl AccessViolation
    end.

End Ctypes.

(** ** win32cred *)

Module Win32cred.
Import Wide Ctypes.

Definition CRED_TYPE_GENERIC : Z := 1.
Definition CRED_PERSIST_ENTERPRISE : Z := 3.

(** Modelled from the spec: [_advapi32.SUPPORTED_CREDKEYS] is not among the
    sources. The recognized credential keys are Type, TargetName, Persist,
    UserName, CredentialBlob and Comment. *)
Definition recognized_keys : list string :=
  ["Type"; "TargetName"; "Persist"; "UserName"; "CredentialBlob"; "Comment"]%string.

(** What [_CredFree] is handed: the record pointer of a read or the array
    pointer of an enumeration. *)
Inductive freed :=
| Record_at (p : PCREDENTIAL)
| Array_at (p : PPCREDENTIAL).

(** The calls of native primitives, with their arguments. *)
Inductive call :=
| Call_CredWrite (c : CREDENTIAL) (flag : Z)
| Call_CredRead (TargetName : list Z) (Type_ flag : Z)
| Call_CredDelete (TargetName : list Z) (Type_ flag : Z)
| Call_CredEnumerate (Filter : option (list Z)) (Flags : Z)
| Call_CredFree (p : freed)
| Call_GetACP.

Definition is_CredFree (c : call) : bool :=
  match c with Call_CredFree _ => true | _ => false end.

Definition is_CredWrite (c : call) : bool :=
  match c with Call_CredWrite _ _ => true | _ => false end.

Abbreviation history := (list call).

(** A computation that calls native primitives: from the history so far
    to a result, or an exception, and the extended history. *)
Definition M (A : Type) : Type := history -> (exn + A) * history.

Definition ret {A} (a : A) : M A := fun h => (inr a, h).

Definition raise {A} (e : exn) : M A := fun h => (inl e, h).

Definition lift {A} (r : exn + A) : M A := fun h => (r, h).

Definition bind {A B} (m : M A) (k : A -> M B) : M B :=
  fun h =>
    match m h with
    | (inl e, h') => (inl e, h')
    | (inr a, h') => k a h'
    end.

Declare Scope cred_scope.
Delimit Scope cred_scope with cred.
Notation "'do' x <- m ; k" := (bind m (fun x => k))
  (at level 10, x name, m at level 100, k at level 200) : cred_scope.
Local Open Scope cred_scope.

Fixpoint foldM {A K} (f : A -> K -> M A) (a : A) (l : list K) : M A :=
  match l with
  | [] => ret a
  | k :: l => do a' <- f a k; foldM f a' l
  end.

(** [try: body finally: final]. The [finally] clause runs on every exit
    of [body]; an exception it raises replaces the outcome of [body]. *)
Definition try_finally {A} (body : M A) (final : M unit) : M A :=
  fun h =>
    let '(r, h1) := body h in
    match final h1 with
    | (inl e, h2) => (inl e, h2)
    | (inr _, h2) => (r, h2)
    end.

(** Modelled from the spec: the context manager [pywintypes.pywin32error]
    is not among the sources. A failure of the native primitive is
    translated into the platform error, which carries the native error code
    and the operation name; any other outcome passes through. *)
Definition pywin32error {A} (body : M A) : M A :=
  fun h =>
    match body h with
    | (inl (WindowsError winerror function), h') =>
        (inl (pywintypes_error winerror function), h')
    | out => out
    end.

(** [a == b] on the values of the model. *)
Definition py_eq (a b : pyval) : bool :=
  match a, b with
  | PyNone, PyNone => true
  | PyInt x, PyInt y => x =? y
  | PyStr s, PyStr t => bool_decide (s = t)
  | PyBytes s, PyBytes t => bool_decide (s = t)
  | _, _ => false
  end.

(** Modelled from the spec: [compat.is_unicode] is not among the sources;
    it tells whether the secret is represented as text. *)
Definition is_unicode (v : pyval) : bool :=
  match v with PyStr _ => true | _ => false end.

(** The external collaborators. [SUPPORTED_CREDKEYS] is the order in which
    the set of supported keys is iterated. Each native primitive answers,
    from the history of calls and its arguments, with a native error code
    or a result. [codec_decode code_page b] is the strict decoding of [b] by
    the Python codec named [str(code_page)], [None] when it raises. *)
Record platform := {
  SUPPORTED_CREDKEYS : list string;
  advapi32_CredWrite : history -> CREDENTIAL -> Z -> Z + unit;
  advapi32_CredRead : history -> list Z -> Z -> Z -> Z + PCREDENTIAL;
  advapi32_CredDelete : history -> list Z -> Z -> Z -> Z + unit;
  advapi32_CredEnumerate :
    history -> option (list Z) -> Z -> Z + (Z * PPCREDENTIAL);
  kernel32_GetACP : history -> Z;
  codec_decode : Z -> list Z -> option (list Z)
}.

Section Store.

Variable P : platform.

(** Modelled from the spec: the wrappers [_advapi32._CredWrite],
    [_CredRead], [_CredDelete], [_CredEnumerate] and [_CredFree] and
    [_kernel32._GetACP] are not among the sources. The four store primitives
    answer success or a native error code, which their error check raises as
    a [WindowsError]; [native_free] returns nothing; the code page query
    returns an integer. Every call is recorded in the history. *)
Definition native {A} (c : call) (function : string) (answer : Z + A) : M A :=
  fun h =>
    (match answer with
     | inl winerror => inl (WindowsError winerror function)
     | inr a => inr a
     end, h ++ [c]).

Definition _CredWrite (c_creds : CREDENTIAL) (flag : Z) : M unit :=
  fun h => native (Call_CredWrite c_creds flag) "CredWrite"
             (advapi32_CredWrite P h c_creds flag) h.

Definition _CredRead (TargetName : list Z) (Type_ flag : Z) : M PCREDENTIAL :=
  fun h => native (Call_CredRead TargetName Type_ flag) "CredRead"
             (advapi32_CredRead P h TargetName Type_ flag) h.

Definition _CredDelete (TargetName : list Z) (Type_ flag : Z) : M unit :=
  fun h => native (Call_CredDelete TargetName Type_ flag) "CredDelete"
             (advapi32_CredDelete P h TargetName Type_ flag) h.

Definition _CredEnumerate (Filter : option (list Z)) (Flags : Z)
  : M (Z * PPCREDENTIAL) :=
  fun h => native (Call_CredEnumerate Filter Flags) "CredEnumerate"
             (advapi32_CredEnumerate P h Filter Flags) h.

Definition _CredFree (p : freed) : M unit :=
  fun h => (inr tt, h ++ [Call_CredFree p]).

Definition _GetACP : M Z :=
  fun h => (inr (kernel32_GetACP P h), h ++ [Call_GetACP]).

(** [unicode(password, encoding=str(code_page), errors='strict')]. *)
Definition unicode (password : pyval) (code_page : Z) : exn + pyval :=
  match password with
  | PyBytes b =>
      match codec_decode P code_page b with
      | Some s => inr (PyStr s)
      | None => inl UnicodeDecodeError
      end
  | _ => inl TypeError
  end.

Definition _make_blob (password : pyval) : M pyval :=
  if is_unicode password then ret password
  else
    do code_page <- _GetACP;
    lift (unicode password code_page).

(** The body of the loop of [CredWrite] (lines 56 to 67). *)
Definition CredWrite_key (credential : gmap string pyval)
    (c_creds : CREDENTIAL) (key : string) : M CREDENTIAL :=
  match credential !! key with
  | Some value =>
      if negb (String.eqb key "CredentialBlob") then
        lift (setattr c_creds key value)
      else
        do blob <- _make_blob value;
        do blob_data <- lift (create_unicode_buffer blob);
        let c_creds :=
          set_CredentialBlobSize
            (DWORD (sizeof_array blob_data - sizeof_c_wchar)) c_creds in
        ret (set_CredentialBlob (cast_LPBYTE blob_data) c_creds)
  | None => ret c_creds
  end.

Definition CredWrite (credential : gmap string pyval) (flag : Z) : M unit :=
  let unsupported : gset string :=
    dom credential ∖ list_to_set (SUPPORTED_CREDKEYS P) in
  if negb (Nat.eqb (size unsupported) 0) then
    raise (ValueError (Format "Unsupported keys: {0}" unsupported))
  else if negb (flag =? 0) then
    raise (ValueError (Msg "flag != 0 not yet supported"))
  else
    let c_creds := zeroed in
    let c_creds := memset_CREDENTIAL c_creds flag in
    do c_creds <- foldM (CredWrite_key credential) c_creds (SUPPORTED_CREDKEYS P);
    pywin32error (_CredWrite c_creds 0).

(** The body of the loop of [_cred_as_dict]. *)
Definition _cred_as_dict_key (c_creds : CREDENTIAL)
    (credential : gmap string pyval) (key : string) : exn + gmap string pyval :=
  if negb (String.eqb key "CredentialBlob") then
    Res.bind (getattr c_creds key) (fun v => inr (<[key := v]> credential))
  else
    Res.bind
      (_PyBytes_FromStringAndSize
         (c_CredentialBlob c_creds) (c_CredentialBlobSize c_creds))
      (fun blob => inr (<["CredentialBlob"%string := blob]> credential)).

Definition _cred_as_dict (c_creds : CREDENTIAL) : exn + gmap string pyval :=
  Res.foldM (_cred_as_dict_key c_creds) ∅ (SUPPORTED_CREDKEYS P).

Definition CredRead (TargetName : list Z) (Type_ : Z) : M (gmap string pyval) :=
  if negb (Type_ =? CRED_TYPE_GENERIC) then
    raise (ValueError (Msg "Type != CRED_TYPE_GENERIC not yet supported"))
  else
    let flag := 0 in
    do c_pcreds <- pywin32error (_CredRead TargetName Type_ flag);
    try_finally
      (lift (Res.bind (contents c_pcreds) _cred_as_dict))
      (_CredFree (Record_at c_pcreds)).

Definition CredDelete (TargetName : list Z) (Type_ : Z) : M unit :=
  if negb (Type_ =? CRED_TYPE_GENERIC) then
    raise (ValueError (Msg "Type != CRED_TYPE_GENERIC not yet supported."))
  else
    pywin32error (_CredDelete TargetName Type_ 0).

(** The element expression of the comprehension of [CredEnumerate]:
    [_cred_as_dict(c_ppcreds[index].contents)]. *)
Definition decode_at (c_ppcreds : PPCREDENTIAL) (i : nat)
  : exn + gmap string pyval :=
  Res.bind (index c_ppcreds i) (fun p => Res.bind (contents p) _cred_as_dict).

Definition is_generic (cred : gmap string pyval) : exn + bool :=
  match cred !! "Type"%string with
  | Some v => inr (py_eq v (PyInt CRED_TYPE_GENERIC))
  | None => inl (KeyError "Type")
  end.

Definition CredEnumerate (Filter : option (list Z)) (Flags : Z)
  : M (list (gmap string pyval)) :=
  do out <- pywin32error (_CredEnumerate Filter Flags);
  let '(c_count, c_ppcreds) := out in
  do creds <-
    try_finally
      (lift (Res.mapM (decode_at c_ppcreds) (seq 0 (Z.to_nat c_count))))
      (_CredFree (Array_at c_ppcreds));
  lift (Res.filterM is_generic creds).

End Store.

End Win32cred.

(** ** The codec as a field table

    The same encoding and decoding, key by key: what each recognized key
    stores in the record, and what is read back from it. The lemmas below
    relate this table to the loops of [CredWrite] and [_cred_as_dict]. *)

Module Codec.
Import Wide Ctypes Win32cred.

Inductive field :=
| F_DWORD (z : Z)
| F_wchar_p (p : pointer)
| F_blob (size : Z) (p : pointer).

(** The part of the record a recognized key stands for. *)
Definition field_of (c : CREDENTIAL) (key : string) : option field :=
  if String.eqb key "Type" then Some (F_DWORD (c_Type c))
  else if String.eqb key "Persist" then Some (F_DWORD (c_Persist c))
  else if String.eqb key "TargetName" then Some (F_wchar_p (c_TargetName c))
  else if String.eqb key "UserName" then Some (F_wchar_p (c_UserName c))
  else if String.eqb key "Comment" then Some (F_wchar_p (c_Comment c))
  else if String.eqb key "CredentialBlob" then
    Some (F_blob (c_CredentialBlobSize c) (c_CredentialBlob c))
  else None.

(** The fields no key stands for. *)
Definition untouched (c : CREDENTIAL) : Z * Z * Z * pointer * pointer :=
  (c_Flags c, c_LastWritten c, c_AttributeCount c, c_Attributes c, c_TargetAlias c).

(** What one turn of the loop of [CredWrite] stores for [key], when the
    code page query answers [code_page]. *)
Definition encode_field (P : platform) (code_page : Z) (key : string)
    (value : pyval) : exn + field :=
  if String.eqb key "CredentialBlob" then
    Res.bind (if is_unicode value then inr value else unicode P value code_page)
      (fun blob =>
    Res.bind (create_unicode_buffer blob) (fun blob_data =>
    inr (F_blob (DWORD (sizeof_array blob_data - sizeof_c_wchar))
           (cast_LPBYTE blob_data))))
  else if String.eqb key "Type" || String.eqb key "Persist" then
    Res.bind (to_DWORD value) (fun z => inr (F_DWORD z))
  else if String.eqb key "TargetName" || String.eqb key "UserName"
          || String.eqb key "Comment" then
    Res.bind (to_c_wchar_p value) (fun p => inr (F_wchar_p p))
  else inl (AttributeError key).

(** The calls one turn of the loop makes: the code page is queried for a
    secret that is not text. *)
Definition code_page_queries (key : string) (value : pyval) : history :=
  if String.eqb key "CredentialBlob" && negb (is_unicode value)
  then [Call_GetACP] else [].

Definition queries (credential : gmap string pyval) (keys : list string) : history :=
  flat_map
    (fun key =>
       match credential !! key with
       | Some value => code_page_queries key value
       | None => []
       end)
    keys.

(** What one turn of the loop of [_cred_as_dict] reads. *)
Definition decode_field (f : field) : exn + pyval :=
  match f with
  | F_DWORD z => inr (PyInt z)
  | F_wchar_p p => of_c_wchar_p p
  | F_blob size p => _PyBytes_FromStringAndSize p size
  end.

(** The text of a secret: itself, or the decoding of its bytes under the
    code page. *)
Definition secret_text (P : platform) (code_page : Z) (value : pyval)
  : option (list Z) :=
  match value with
  | PyStr s => Some s
  | PyBytes b => codec_decode P code_page b
  | _ => None
  end.

(** The bytes that can be read at a pointer. *)
Definition readable (p : pointer) : list Z :=
  match p with Ptr mem => mem | Addr _ => [] end.

(** A decoded credential is complete for a record: it has the six
    recognized keys, and under CredentialBlob the bytes, as many as
    CredentialBlobSize says, found at the blob pointer. *)
Definition complete (c : CREDENTIAL) (d : gmap string pyval) : Prop :=
  dom d = list_to_set recognized_keys /\
  exists blob, d !! "CredentialBlob"%string = Some (PyBytes blob) /\
    Z.of_nat (length blob) = c_CredentialBlobSize c /\
    blob = take (Z.to_nat (c_CredentialBlobSize c)) (readable (c_CredentialBlob c)).

(** A value that the native field of its key holds as it is: an integer of
    32 bits for Type and Persist; [None] or a text of characters without NUL
    for the names; for the secret, a text, given or decoded, whose UTF-16LE
    encoding is shorter than 2^32 bytes. *)
Definition fits_field (P : platform) (code_page : Z) (key : string)
    (value : pyval) : bool :=
  if String.eqb key "CredentialBlob" then
    match secret_text P code_page value with
    | Some s => Z.of_nat (length (utf_16_le s)) <? 2 ^ 32
    | None => false
    end
  else if String.eqb key "Type" || String.eqb key "Persist" then
    match value with
    | PyInt z => (0 <=? z) && (z <? 2 ^ 32)
    | _ => false
    end
  else if String.eqb key "TargetName" || String.eqb key "UserName"
          || String.eqb key "Comment" then
    match value with
    | PyNone => true
    | PyStr s => forallb (fun c => scalarb c && (0 <? c)) s
    | _ => false
    end
  else false.

Definition fits (P : platform) (code_page : Z) (credential : gmap string pyval)
  : Prop :=
  map_Forall (fun key value => fits_field P code_page key value = true) credential.

(** A value that the loop of [CredWrite] stores without raising. *)
Definition accepted_field (P : platform) (code_page : Z) (key : string)
    (value : pyval) : bool :=
  match encode_field P code_page key value with
  | inr _ => true
  | inl _ => false
  end.

Definition accepted (P : platform) (code_page : Z)
    (credential : gmap string pyval) : Prop :=
  map_Forall (fun key value => accepted_field P code_page key value = true)
    credential.

(** What a field of the credential is expected to come back as: the
    UTF-16LE bytes of the secret text for CredentialBlob, itself otherwise. *)
Definition round_trip (P : platform) (code_page : Z) (key : string)
    (value : pyval) : pyval :=
  if String.eqb key "CredentialBlob" then
    match secret_text P code_page value with
    | Some s => PyBytes (utf_16_le s)
    | None => value
    end
  else value.

(** What a key absent from the credential comes back as: the reading of
    the zeroed field. *)
Definition default (key : string) : pyval :=
  if String.eqb key "CredentialBlob" then PyBytes []
  else if String.eqb key "Type" || String.eqb key "Persist" then PyInt 0
  else PyNone.

(** The number of releases recorded in a history. *)
Definition releases (h : history) : nat := length (List.filter is_CredFree h).

(** The number of calls of the native write primitive. *)
Definition writes (h : history) : nat := length (List.filter is_CredWrite h).

(** The test of [is_generic] on a decoded credential. *)
Definition generic (cred : gmap string pyval) : bool :=
  match cred !! "Type"%string with
  | Some (PyInt z) => z =? CRED_TYPE_GENERIC
  | _ => false
  end.

End Codec.

(** ** A concrete platform

    A store with code page 1252 that accepts every write, knows two targets
    and enumerates three records, used to run the functions. *)

Module Example.
Import Wide Ctypes Win32cred.

(** [b.decode('cp1252')] for the bytes the examples use: ASCII and the
    Latin-1 range are themselves, the five unassigned bytes fail. *)
Definition cp1252 (b : Z) : option Z :=
  if (0 <=? b) && (b <? 128) then Some b
  else if (160 <=? b) && (b <? 256) then Some b
  else if b =? 128 then Some 8364
  else None.

Fixpoint decode_cp1252 (bs : list Z) : option (list Z) :=
  match bs with
  | [] => Some []
  | b :: bs =>
      match cp1252 b, decode_cp1252 bs with
      | Some c, Some s => Some (c :: s)
      | _, _ => None
      end
  end.

(** "pw" as wide characters, with its terminator. *)
Definition pw_bytes : list Z := [112; 0; 119; 0; 0; 0].

Definition stored (type : Z) (name : list Z) : CREDENTIAL :=
  {| c_Flags := 0; c_Type := type;
     c_TargetName := Ptr (array_bytes (as_wide_char name ++ [0]));
     c_Comment := NULL; c_LastWritten := 0;
     c_CredentialBlobSize := 4; c_CredentialBlob := Ptr pw_bytes;
     c_Persist := CRED_PERSIST_ENTERPRISE;
     c_AttributeCount := 0; c_Attributes := NULL; c_TargetAlias := NULL;
     c_UserName := Ptr (array_bytes (as_wide_char [98; 111; 98] ++ [0])) |}.

(** A record whose blob length runs past the readable blob. *)
Definition malformed : CREDENTIAL :=
  set_CredentialBlobSize 100 (stored 1 [109]).

Definition ERROR_NOT_FOUND : Z := 1168.

Definition windows : platform :=
  {| SUPPORTED_CREDKEYS :=
       ["Comment"; "CredentialBlob"; "Type"; "UserName"; "Persist"; "TargetName"]%string;
     advapi32_CredWrite := fun _ _ _ => inr tt;
     advapi32_CredRead := fun _ name _ _ =>
       if bool_decide (name = [97]) then inr (Some (stored 1 [97]))
       else if bool_decide (name = [109]) then inr (Some malformed)
       else inl ERROR_NOT_FOUND;
     advapi32_CredDelete := fun _ name _ _ =>
       if bool_decide (name = [97]) then inr tt else inl ERROR_NOT_FOUND;
     advapi32_CredEnumerate := fun _ filter _ =>
       match filter with
       | None => inr (3, Some [Some (stored 1 [97]); Some (stored 2 [98]);
                               Some (stored 1 [99])])
       | Some _ => inr (2, Some [Some (stored 2 [98]); Some malformed])
       end;
     kernel32_GetACP := fun _ => 1252;
     codec_decode := fun code_page b =>
       if code_page =? 1252 then decode_cp1252 b else None |}.

(** The same platform, with given answers of the native write and of the
    native enumeration. *)
Definition with_answers (write : Z + unit) (enumerate : Z + (Z * PPCREDENTIAL))
  : platform :=
  {| SUPPORTED_CREDKEYS := SUPPORTED_CREDKEYS windows;
     advapi32_CredWrite := fun _ _ _ => write;
     advapi32_CredRead := advapi32_CredRead windows;
     advapi32_CredDelete := advapi32_CredDelete windows;
     advapi32_CredEnumerate := fun _ _ _ => enumerate;
     kernel32_GetACP := kernel32_GetACP windows;
     codec_decode := codec_decode windows |}.

Definition ERROR_ACCESS_DENIED : Z := 5.

(** The record of the last native write in a history. *)
Fixpoint last_written (h : history) : option CREDENTIAL :=
  match h with
  | [] => None
  | c :: h =>
      match last_written h with
      | Some c_creds => Some c_creds
      | None =>
          match c with
          | Call_CredWrite c_creds _ => Some c_creds
          | _ => None
          end
      end
  end.

(** A store of one credential: a read answers with the record of the last
    write, whatever the target, and with "not found" before any write. The
    keys are iterated in another order than on [windows]. *)
Definition vault : platform :=
  {| SUPPORTED_CREDKEYS :=
       ["TargetName"; "Persist"; "CredentialBlob"; "Type"; "Comment"; "UserName"]%string;
     advapi32_CredWrite := fun _ _ _ => inr tt;
     advapi32_CredRead := fun h _ _ _ =>
       match last_written h with
       | Some c_creds => inr (Some c_creds)
       | None => inl ERROR_NOT_FOUND
       end;
     advapi32_CredDelete := fun _ _ _ _ => inr tt;
     advapi32_CredEnumerate := fun _ _ _ => inl ERROR_NOT_FOUND;
     kernel32_GetACP := fun _ => 1252;
     codec_decode := fun code_page b =>
       if code_page =? 1252 then decode_cp1252 b else None |}.

(** The decoding of a record on this platform. *)
Definition decoded (c : CREDENTIAL) : gmap string pyval :=
  match _cred_as_dict windows c with
  | inr d => d
  | inl _ => ∅
  end.

(** The secret of the spec, "pässwörd", as text. *)
Definition password : list Z := [112; 228; 115; 115; 119; 246; 114; 100].

Definition credential : gmap string pyval :=
  {[ "Type"%string := PyInt 1;
     "TargetName"%string := PyStr [97];
     "UserName"%string := PyStr [98; 111; 98];
     "CredentialBlob"%string := PyStr password ]}.

(** The same credential with its secret given as bytes of code page 1252;
    0x80 is the euro sign. *)
Definition credential_bytes : gmap string pyval :=
  <["CredentialBlob"%string := PyBytes [112; 128]]> credential.

End Example.

(** ** Lemmas on wide characters *)

Module WideFacts.
Import Wide.

Lemma scalarb_spec c : scalarb c = true <-> scalar c.
Proof. unfold scalarb, scalar. lia. Qed.

Lemma unit_bytes_div u : unit_bytes u = [u mod 256; u / 256].
Proof.
  unfold unit_bytes. f_equal.
  - change 255 with (Z.ones 8). rewrite Z.land_ones by lia. reflexivity.
  - rewrite Z.shiftr_div_pow2 by lia. reflexivity.
Qed.

Lemma units_of_codepoint_div c :
  units_of_codepoint c =
    if c <? 65536 then [c]
    else [55296 + (c - 65536) / 1024; 56320 + (c - 65536) mod 1024].
Proof.
  unfold units_of_codepoint.
  destruct (Z.leb_spec c 65535), (Z.ltb_spec c 65536); try lia; try reflexivity.
  rewrite Z.shiftr_div_pow2 by lia.
  change 1023 with (Z.ones 10). rewrite Z.land_ones by lia. reflexivity.
Qed.

(** The bytes of the array of units are the UTF-16LE encoding. *)
Lemma array_bytes_as_wide_char s :
  array_bytes (as_wide_char s) = utf_16_le s.
Proof.
  unfold array_bytes, as_wide_char, utf_16_le.
  induction s as [|c s IH]; [reflexivity|].
  cbn [flat_map]. rewrite flat_map_app, IH. f_equal.
  rewrite units_of_codepoint_div.
  destruct (c <? 65536); cbn [flat_map app]; rewrite !unit_bytes_div; reflexivity.
Qed.

Lemma array_bytes_app us vs :
  array_bytes (us ++ vs) = array_bytes us ++ array_bytes vs.
Proof. apply flat_map_app. Qed.

Lemma length_array_bytes us :
  Z.of_nat (length (array_bytes us)) = 2 * Z.of_nat (length us).
Proof.
  induction us as [|u us IH]; [reflexivity|].
  cbn [array_bytes flat_map unit_bytes app length] in *.
  unfold array_bytes in IH. lia.
Qed.

Lemma Forall_repeat {A} (Q : A -> Prop) x n : Q x -> Forall Q (repeat x n).
Proof. intros Hx. induction n; cbn; by constructor. Qed.

Lemma length_as_wide_char_bmp s :
  Forall bmp s -> length (as_wide_char s) = length s.
Proof.
  induction 1 as [|c s Hc _ IH]; [reflexivity|].
  cbn [as_wide_char flat_map]. unfold units_of_codepoint.
  unfold bmp in Hc. destruct (Z.leb_spec c 65535); [|lia].
  cbn [app length]. f_equal. exact IH.
Qed.

Lemma units_of_codepoint_range c :
  0 <= c <= 1114111 -> Forall unit16 (units_of_codepoint c).
Proof.
  intros Hc. rewrite units_of_codepoint_div. unfold unit16.
  destruct (Z.ltb_spec c 65536).
  - apply Forall_cons; split; [lia | constructor].
  - assert (0 <= (c - 65536) / 1024 < 1024)
      by (split; [apply Z.div_pos; lia | apply Z.div_lt_upper_bound; lia]).
    pose proof (Z.mod_pos_bound (c - 65536) 1024 ltac:(lia)).
    repeat (apply Forall_cons; split; [lia|]). constructor.
Qed.

Lemma as_wide_char_range s :
  Forall (fun c => 0 <= c <= 1114111) s -> Forall unit16 (as_wide_char s).
Proof.
  induction 1 as [|c s Hc _ IH]; [constructor|].
  cbn [as_wide_char flat_map]. apply Forall_app. split; [|exact IH].
  by apply units_of_codepoint_range.
Qed.

Lemma units_of_codepoint_nonzero c :
  0 < c -> Forall (fun u => u <> 0) (units_of_codepoint c).
Proof.
  intros Hc. rewrite units_of_codepoint_div.
  destruct (Z.ltb_spec c 65536).
  - apply Forall_cons; split; [lia | constructor].
  - assert (0 <= (c - 65536) / 1024) by (apply Z.div_pos; lia).
    pose proof (Z.mod_pos_bound (c - 65536) 1024 ltac:(lia)).
    repeat (apply Forall_cons; split; [lia|]). constructor.
Qed.

Lemma as_wide_char_nonzero s :
  Forall (fun c => 0 < c) s -> Forall (fun u => u <> 0) (as_wide_char s).
Proof.
  induction 1 as [|c s Hc _ IH]; [constructor|].
  cbn [as_wide_char flat_map]. apply Forall_app. split; [|exact IH].
  by apply units_of_codepoint_nonzero.
Qed.

Lemma unit_bytes_value u :
  unit16 u ->
  exists lo hi, unit_bytes u = [lo; hi] /\ lo + 256 * hi = u.
Proof.
  intros Hu. rewrite unit_bytes_div. eexists _, _. split; [reflexivity|].
  pose proof (Z.div_mod u 256 ltac:(lia)). lia.
Qed.

(** Reading back a NUL-terminated array: the units before the NUL,
    whatever follows it in memory. *)
Lemma wcs_array_bytes us tail :
  Forall unit16 us -> Forall (fun u => u <> 0) us ->
  wcs (array_bytes (us ++ [0]) ++ tail) = Some us.
Proof.
  induction 1 as [|u us Hu _ IH]; intros Hnz.
  - reflexivity.
  - apply Forall_cons in Hnz as [Hu0 Hnz].
    destruct (unit_bytes_value u Hu) as (lo & hi & Hb & Hv).
    cbn [app array_bytes flat_map]. rewrite Hb. cbn [app wcs].
    rewrite Hv. destruct (Z.eqb_spec u 0); [contradiction|].
    fold (array_bytes (us ++ [0])). rewrite (IH Hnz). reflexivity.
Qed.

Lemma is_high_scalar c : scalar c -> c <= 65535 -> is_high c = false.
Proof. unfold scalar, is_high. lia. Qed.

(** Units to text and back: characters survive the wide buffer. *)
Lemma from_wide_char_as_wide_char s :
  Forall scalar s -> from_wide_char (as_wide_char s) = s.
Proof.
  induction 1 as [|c s Hc _ IH]; [reflexivity|].
  cbn [as_wide_char flat_map]. fold (as_wide_char s).
  rewrite units_of_codepoint_div.
  destruct (Z.ltb_spec c 65536) as [Hlt|Hge].
  - cbn [app from_wide_char].
    destruct (as_wide_char s) as [|l rest] eqn:E.
    + cbn in IH. by rewrite <- IH.
    + rewrite is_high_scalar by (auto; lia). cbn [andb].
      f_equal. exact IH.
  - destruct Hc as [Hr Hs].
    assert (0 <= (c - 65536) / 1024 < 1024)
      by (split; [apply Z.div_pos; lia | apply Z.div_lt_upper_bound; lia]).
    pose proof (Z.mod_pos_bound (c - 65536) 1024 ltac:(lia)).
    pose proof (Z.div_mod (c - 65536) 1024 ltac:(lia)).
    cbn [app from_wide_char].
    replace (is_high (55296 + (c - 65536) / 1024)) with true
      by (unfold is_high; lia).
    replace (is_low (56320 + (c - 65536) mod 1024)) with true
      by (unfold is_low; lia).
    cbn [andb]. rewrite IH. f_equal. lia.
Qed.

End WideFacts.


(** ** The loops and the field table *)

Module CodecFacts.
Import Wide Ctypes Win32cred Codec WideFacts.

Lemma recognized_cases key :
  key ∈ recognized_keys ->
  key = "Type"%string \/ key = "TargetName"%string \/ key = "Persist"%string \/
  key = "UserName"%string \/ key = "CredentialBlob"%string \/ key = "Comment"%string.
Proof.
  unfold recognized_keys. rewrite !elem_of_cons, elem_of_nil. tauto.
Qed.

Ltac each_key H :=
  destruct (recognized_cases _ H) as [->|[->|[->|[->|[->| ->]]]]].

(** A field other than the one just stored is left as it was. *)
Ltac other_field :=
  let k := fresh "k" in
  let Hk := fresh "Hk" in
  intros k Hk; unfold field_of; cbn;
  repeat match goal with
    | |- context [String.eqb k ?s] =>
        destruct (String.eqb_spec k s); [subst; try congruence; try reflexivity|]
    end;
  reflexivity.

Lemma keys_recognized (P : platform) key :
  SUPPORTED_CREDKEYS P ≡ₚ recognized_keys ->
  key ∈ SUPPORTED_CREDKEYS P <-> key ∈ recognized_keys.
Proof. intros H. by rewrite H. Qed.

Lemma keys_NoDup (P : platform) :
  SUPPORTED_CREDKEYS P ≡ₚ recognized_keys -> NoDup (SUPPORTED_CREDKEYS P).
Proof.
  intros H. rewrite H. unfold recognized_keys.
  repeat (apply NoDup_cons; split;
          [rewrite ?elem_of_cons, elem_of_nil; intuition discriminate|]).
  apply NoDup_nil_2.
Qed.

(** One turn of the loop of [CredWrite], for a key of the credential. *)
Lemma CredWrite_key_spec (P : platform) credential c key value h cp :
  key ∈ recognized_keys ->
  credential !! key = Some value ->
  (key = "CredentialBlob"%string -> kernel32_GetACP P h = cp) ->
  (CredWrite_key P credential c key h).2 = h ++ code_page_queries key value /\
  match encode_field P cp key value with
  | inl e => (CredWrite_key P credential c key h).1 = inl e
  | inr f =>
      exists c', (CredWrite_key P credential c key h).1 = inr c' /\
        field_of c' key = Some f /\
        (forall k', k' <> key -> field_of c' k' = field_of c k') /\
        untouched c' = untouched c
  end.
Proof.
  intros Hkey Hv Hcp. unfold CredWrite_key. rewrite Hv.
  each_key Hkey; cbn.
  1-4, 6:
    unfold lift, setattr, to_DWORD, to_c_wchar_p, code_page_queries; cbn;
    rewrite app_nil_r; split; [reflexivity|];
    destruct value; cbn; try reflexivity;
    try (case_bool_decide; cbn; try reflexivity);
    (eexists; split; [reflexivity|]; split; [reflexivity|]; split;
     [other_field | reflexivity]).
  specialize (Hcp eq_refl).
  unfold code_page_queries, _make_blob, bind, _GetACP, lift, ret, unicode.
  destruct value; cbn; rewrite ?app_nil_r, ?Hcp.
  - split; reflexivity.
  - split; reflexivity.
  - split; [reflexivity|].
    eexists; split; [reflexivity|]; split; [reflexivity|]; split;
      [other_field | reflexivity].
  - destruct (codec_decode P cp b); cbn; (split; [reflexivity|]);
      [|reflexivity].
    eexists; split; [reflexivity|]; split; [reflexivity|]; split;
      [other_field | reflexivity].
Qed.

Lemma CredWrite_key_absent (P : platform) credential c key h :
  credential !! key = None ->
  CredWrite_key P credential c key h = (inr c, h).
Proof. intros Hv. unfold CredWrite_key. by rewrite Hv. Qed.

Lemma code_page_queries_other key value :
  key <> "CredentialBlob"%string -> code_page_queries key value = [].
Proof.
  intros Hk. unfold code_page_queries.
  destruct (String.eqb_spec key "CredentialBlob"); [contradiction|reflexivity].
Qed.

(** The whole loop of [CredWrite], when every turn stores its value: the
    record it ends with, field by field, and the calls it made. *)
Lemma CredWrite_loop_spec (P : platform) credential cp :
  forall l c h,
  NoDup l ->
  (forall k, k ∈ l -> k ∈ recognized_keys) ->
  ("CredentialBlob"%string ∈ l -> kernel32_GetACP P h = cp) ->
  (forall k v, k ∈ l -> credential !! k = Some v ->
     exists f, encode_field P cp k v = inr f) ->
  exists c',
    foldM (CredWrite_key P credential) c l h = (inr c', h ++ queries credential l) /\
    (forall k v, k ∈ l -> credential !! k = Some v ->
       exists f, encode_field P cp k v = inr f /\ field_of c' k = Some f) /\
    (forall k, k ∉ l \/ credential !! k = None -> field_of c' k = field_of c k) /\
    untouched c' = untouched c.
Proof.
  induction l as [|k0 l IH]; intros c h Hnd Hrec Hcp Hok.
  - exists c. cbn. rewrite app_nil_r. split; [reflexivity|].
    split; [|split; done].
    intros k v Hk. by apply elem_of_nil in Hk.
  - apply NoDup_cons in Hnd as [Hk0 Hnd].
    assert (Hrec' : forall k, k ∈ l -> k ∈ recognized_keys)
      by (intros k Hk; apply Hrec; by right).
    assert (Hok' : forall k v, k ∈ l -> credential !! k = Some v ->
                     exists f, encode_field P cp k v = inr f)
      by (intros k v Hk; apply Hok; by right).
    cbn [foldM queries flat_map]. unfold bind.
    destruct (credential !! k0) as [v0|] eqn:Hv0.
    + destruct (CredWrite_key_spec P credential c k0 v0 h cp) as [H2 H1];
        [apply Hrec; by left | done | intros ->; apply Hcp; by left |].
      destruct (Hok k0 v0) as [f0 Hf0]; [by left | done |].
      rewrite Hf0 in H1. destruct H1 as (c1 & Hc1 & Hfield & Hother & Hunt).
      destruct (CredWrite_key P credential c k0 h) as [r h1].
      cbn in H2, Hc1. subst r h1.
      destruct (IH c1 (h ++ code_page_queries k0 v0)) as (c' & Hfold & Hset & Hkeep & Hunt');
        [done | done | | done |].
      { intros Hb. rewrite code_page_queries_other, app_nil_r.
        - apply Hcp. by right.
        - intros ->. contradiction. }
      exists c'. rewrite Hfold, <- app_assoc. split; [reflexivity|].
      split; [|split].
      * intros k v Hk Hv. apply elem_of_cons in Hk as [->|Hk]; [|by apply Hset].
        assert (v = v0) as -> by congruence.
        exists f0. split; [done|]. rewrite Hkeep by (by left). done.
      * intros k Hk. rewrite Hkeep.
        -- apply Hother. intros ->. destruct Hk as [Hk|Hk]; [|congruence].
           apply Hk. by left.
        -- destruct Hk as [Hk|Hk]; [left|by right].
           intros Hin. apply Hk. by right.
      * congruence.
    + rewrite CredWrite_key_absent by done. cbn [app].
      destruct (IH c h) as (c' & Hfold & Hset & Hkeep & Hunt');
        [done | done | | done |].
      { intros Hb. apply Hcp. by right. }
      exists c'. split; [done|]. split; [|split].
      * intros k v Hk Hv. apply elem_of_cons in Hk as [->|Hk]; [congruence|].
        by apply Hset.
      * intros k Hk. apply Hkeep. destruct Hk as [Hk|Hk]; [left|by right].
        intros Hin. apply Hk. by right.
      * done.
Qed.

Lemma writes_app h1 h2 : writes (h1 ++ h2) = (writes h1 + writes h2)%nat.
Proof. unfold writes. by rewrite List.filter_app, length_app. Qed.

Lemma releases_app h1 h2 : releases (h1 ++ h2) = (releases h1 + releases h2)%nat.
Proof. unfold releases. by rewrite List.filter_app, length_app. Qed.

Lemma writes_code_page_queries key value : writes (code_page_queries key value) = 0%nat.
Proof. unfold code_page_queries. by destruct (_ && _). Qed.

(** A secret that does not decode under the code page stops the loop, and
    nothing is written. *)
Lemma CredWrite_loop_decode_failure (P : platform) credential b :
  credential !! "CredentialBlob"%string = Some (PyBytes b) ->
  forall l c h,
  (forall k, k ∈ l -> k ∈ recognized_keys) ->
  "CredentialBlob"%string ∈ l ->
  codec_decode P (kernel32_GetACP P h) b = None ->
  exists e h', foldM (CredWrite_key P credential) c l h = (inl e, h') /\
    writes h' = writes h.
Proof.
  intros Hblob. induction l as [|k0 l IH]; intros c h Hrec Hin Hfail.
  - by apply elem_of_nil in Hin.
  - assert (Hrec' : forall k, k ∈ l -> k ∈ recognized_keys)
      by (intros k Hk; apply Hrec; by right).
    cbn [foldM]. unfold bind.
    destruct (credential !! k0) as [v0|] eqn:Hv0.
    + destruct (CredWrite_key_spec P credential c k0 v0 h (kernel32_GetACP P h))
        as [H2 H1]; [apply Hrec; by left | done | done |].
      destruct (CredWrite_key P credential c k0 h) as [r h1].
      cbn in H2, H1. subst h1.
      destruct (String.eqb_spec k0 "CredentialBlob") as [->|Hne].
      * assert (v0 = PyBytes b) as -> by congruence.
        unfold encode_field in H1. cbn in H1. rewrite Hfail in H1. cbn in H1.
        subst r. eexists _, _. split; [reflexivity|].
        by rewrite writes_app, writes_code_page_queries, Nat.add_0_r.
      * rewrite code_page_queries_other, app_nil_r by done.
        destruct r as [e|c1].
        -- by eexists _, _.
        -- apply IH; [done| |done].
           apply elem_of_cons in Hin as [Hin|Hin]; [congruence|done].
    + rewrite CredWrite_key_absent by done.
      apply IH; [done| |done].
      apply elem_of_cons in Hin as [Hin|Hin]; [congruence|done].
Qed.

(** One turn of the loop of [_cred_as_dict]. *)
Lemma _cred_as_dict_key_spec c (d : gmap string pyval) key :
  key ∈ recognized_keys ->
  exists f, field_of c key = Some f /\
    _cred_as_dict_key c d key =
      Res.bind (decode_field f) (fun v => inr (<[key := v]> d)).
Proof. intros Hkey. each_key Hkey; eexists; split; reflexivity. Qed.

(** The whole loop of [_cred_as_dict], when it returns: the keys of the
    mapping and what each holds. *)
Lemma _cred_as_dict_loop_spec c :
  forall l (d0 d : gmap string pyval),
  (forall k, k ∈ l -> k ∈ recognized_keys) ->
  Res.foldM (_cred_as_dict_key c) d0 l = inr d ->
  dom d = dom d0 ∪ list_to_set l /\
  (forall k, k ∈ l ->
     exists f v, field_of c k = Some f /\ decode_field f = inr v /\ d !! k = Some v) /\
  (forall k, k ∉ l -> d !! k = d0 !! k).
Proof.
  induction l as [|k0 l IH]; intros d0 d Hrec Hd.
  - cbn in Hd. injection Hd as <-.
    split; [by rewrite list_to_set_nil, (right_id_L ∅ (∪))|]. split; [|done].
    intros k Hk. by apply elem_of_nil in Hk.
  - cbn [Res.foldM] in Hd.
    destruct (_cred_as_dict_key_spec c d0 k0) as (f0 & Hf0 & Hstep);
      [apply Hrec; by left|].
    rewrite Hstep in Hd. destruct (decode_field f0) as [e|v0] eqn:Hv0; [done|].
    cbn [Res.bind] in Hd.
    destruct (IH (<[k0 := v0]> d0) d) as (Hdom & Hin & Hout);
      [intros k Hk; apply Hrec; by right | done |].
    split; [|split].
    + rewrite Hdom, dom_insert_L, list_to_set_cons.
      by rewrite (comm_L (∪) {[k0]} (dom d0)), (assoc_L (∪)).
    + intros k Hk. destruct (decide (k ∈ l)) as [Hl|Hl]; [by apply Hin|].
      apply elem_of_cons in Hk as [->|Hk]; [|contradiction].
      exists f0, v0. split; [done|]. split; [done|].
      rewrite Hout by done. apply lookup_insert_eq.
    + intros k Hk. apply not_elem_of_cons in Hk as [Hne Hk].
      rewrite Hout by done. by apply lookup_insert_ne.
Qed.

(** The loop of [_cred_as_dict] returns when every field can be read. *)
Lemma _cred_as_dict_loop_returns c :
  forall l (d0 : gmap string pyval),
  (forall k, k ∈ l -> k ∈ recognized_keys) ->
  (forall k f, k ∈ l -> field_of c k = Some f -> exists v, decode_field f = inr v) ->
  exists d, Res.foldM (_cred_as_dict_key c) d0 l = inr d.
Proof.
  induction l as [|k0 l IH]; intros d0 Hrec Hok.
  - by eexists.
  - cbn [Res.foldM].
    destruct (_cred_as_dict_key_spec c d0 k0) as (f0 & Hf0 & Hstep);
      [apply Hrec; by left|].
    rewrite Hstep. destruct (Hok k0 f0) as [v0 Hv0]; [by left | done |].
    rewrite Hv0. cbn [Res.bind]. apply IH.
    + intros k Hk. apply Hrec. by right.
    + intros k f Hk. apply Hok. by right.
Qed.

Lemma DWORD_small z : 0 <= z < 2 ^ 32 -> DWORD z = z.
Proof. intros Hz. unfold DWORD. by apply Z.mod_small. Qed.

Lemma length_utf_16_le s :
  Z.of_nat (length (utf_16_le s)) = 2 * Z.of_nat (length (as_wide_char s)).
Proof. rewrite <- array_bytes_as_wide_char. apply length_array_bytes. Qed.

(** The size the loop of [CredWrite] computes for the blob is the length
    of the array without its terminator. *)
Lemma blob_size s :
  sizeof_array (as_wide_char s ++ [0]) - sizeof_c_wchar =
    Z.of_nat (length (utf_16_le s)).
Proof.
  unfold sizeof_array, sizeof_c_wchar. rewrite length_utf_16_le, length_app.
  cbn [length]. lia.
Qed.

Lemma blob_memory s :
  array_bytes (as_wide_char s ++ [0]) = utf_16_le s ++ [0; 0].
Proof. rewrite array_bytes_app, array_bytes_as_wide_char. reflexivity. Qed.

(** Reading [size] bytes at a buffer that starts with them. *)
Lemma _PyBytes_FromStringAndSize_prefix bs tail :
  _PyBytes_FromStringAndSize (Ptr (bs ++ tail)) (Z.of_nat (length bs)) =
    inr (PyBytes bs).
Proof.
  unfold _PyBytes_FromStringAndSize.
  destruct (Z.eqb_spec (Z.of_nat (length bs)) 0) as [H0|H0].
  - destruct bs; [reflexivity|discriminate].
  - destruct (Z.ltb_spec (Z.of_nat (length bs)) 0); [lia|].
    rewrite length_app.
    destruct (Z.leb_spec (Z.of_nat (length bs)) (Z.of_nat (length bs + length tail)));
      [|lia].
    rewrite Nat2Z.id, take_app_length. reflexivity.
Qed.

(** What is read when [_PyBytes_FromStringAndSize] returns. *)
Lemma _PyBytes_FromStringAndSize_inv p size v :
  _PyBytes_FromStringAndSize p size = inr v ->
  exists bs, v = PyBytes bs /\ Z.of_nat (length bs) = size /\
    bs = take (Z.to_nat size) (readable p).
Proof.
  unfold _PyBytes_FromStringAndSize.
  destruct (Z.eqb_spec size 0) as [->|H0].
  - intros [= <-]. exists []. split; [done|]. split; [done|].
    by destruct p.
  - destruct (Z.ltb_spec size 0); [done|].
    destruct p as [a|mem]; [done|].
    destruct (Z.leb_spec size (Z.of_nat (length mem))); [|done].
    intros [= <-]. eexists. split; [done|]. split; [|done].
    rewrite length_take. lia.
Qed.

Lemma name_characters s :
  forallb (fun c => scalarb c && (0 <? c)) s = true ->
  Forall scalar s /\ Forall (fun c => 0 < c) s.
Proof.
  rewrite forallb_forall. intros H. split; apply Forall_forall; intros c Hc;
    apply list_elem_of_In in Hc; specialize (H c Hc);
    apply andb_prop in H as [H1 H2].
  - by apply scalarb_spec.
  - lia.
Qed.

(** A text without NUL, stored in a [c_wchar_p] field, reads back as it
    was. *)
Lemma c_wchar_p_round_trip s :
  Forall scalar s -> Forall (fun c => 0 < c) s ->
  exists p, to_c_wchar_p (PyStr s) = inr p /\ of_c_wchar_p p = inr (PyStr s).
Proof.
  intros Hs Hpos. unfold to_c_wchar_p.
  eexists. split; [reflexivity|]. unfold of_c_wchar_p.
  rewrite <- (app_nil_r (array_bytes _)), wcs_array_bytes.
  - by rewrite from_wide_char_as_wide_char.
  - apply as_wide_char_range. eapply Forall_impl; [exact Hs|].
    intros c [Hc _]. exact Hc.
  - by apply as_wide_char_nonzero.
Qed.

(** A value that fits its field is stored, and reads back as expected. *)
Lemma field_round_trip (P : platform) cp key value :
  key ∈ recognized_keys ->
  fits_field P cp key value = true ->
  exists f, encode_field P cp key value = inr f /\
    decode_field f = inr (round_trip P cp key value).
Proof.
  intros Hkey Hfits.
  each_key Hkey; unfold fits_field, encode_field, round_trip in *;
    cbn -[to_c_wchar_p of_c_wchar_p] in *.
  1, 3:
    destruct value; try discriminate; cbn;
    eexists; split; [reflexivity|]; cbn; rewrite DWORD_small by lia; reflexivity.
  1, 2, 4:
    destruct value; try discriminate;
    [ eexists; split; reflexivity
    | apply name_characters in Hfits as [Hs Hpos];
      destruct (c_wchar_p_round_trip s Hs Hpos) as (p & -> & Hp);
      eexists; split; [reflexivity|]; exact Hp ].
  assert (Hblob : forall s,
    (Z.of_nat (length (utf_16_le s)) <? 2 ^ 32) = true ->
    exists f,
      Res.bind (create_unicode_buffer (PyStr s)) (fun blob_data =>
        inr (F_blob (DWORD (sizeof_array blob_data - sizeof_c_wchar))
               (cast_LPBYTE blob_data))) = inr f /\
      decode_field f = inr (PyBytes (utf_16_le s))).
  { intros s Hs. cbn. eexists. split; [reflexivity|]. cbn.
    unfold cast_LPBYTE. rewrite blob_size, blob_memory, DWORD_small by lia.
    apply _PyBytes_FromStringAndSize_prefix. }
  destruct value; try discriminate; cbn in *.
  - by apply Hblob.
  - unfold unicode. destruct (codec_decode P cp b) as [s|]; [|discriminate].
    by apply Hblob.
Qed.

(** A zeroed field reads as the default of its key. *)
Lemma zeroed_field key :
  key ∈ recognized_keys ->
  exists f, field_of zeroed key = Some f /\ decode_field f = inr (default key).
Proof. intros Hkey. each_key Hkey; eexists; split; reflexivity. Qed.

(** The loop of [CredWrite], whatever its outcome: it calls nothing but the
    code page query, and a record it returns has kept the fields that no key
    of the credential stands for. *)
Lemma CredWrite_loop_inv (P : platform) credential :
  forall l c h,
  (forall k, k ∈ l -> k ∈ recognized_keys) ->
  exists qs,
    (foldM (CredWrite_key P credential) c l h).2 = h ++ qs /\
    Forall (eq Call_GetACP) qs /\
    forall c', (foldM (CredWrite_key P credential) c l h).1 = inr c' ->
      untouched c' = untouched c /\
      forall k, credential !! k = None -> field_of c' k = field_of c k.
Proof.
  induction l as [|k0 l IH]; intros c h Hrec.
  - exists []. cbn. rewrite app_nil_r. split; [done|]. split; [done|].
    by intros c' [= <-].
  - assert (Hrec' : forall k, k ∈ l -> k ∈ recognized_keys)
      by (intros k Hk; apply Hrec; by right).
    cbn [foldM]. unfold bind.
    destruct (credential !! k0) as [v0|] eqn:Hv0.
    + destruct (CredWrite_key_spec P credential c k0 v0 h (kernel32_GetACP P h))
        as [H2 H1]; [apply Hrec; by left | done | done |].
      destruct (CredWrite_key P credential c k0 h) as [r h1].
      cbn in H2, H1. subst h1.
      assert (Hqs : Forall (eq Call_GetACP) (code_page_queries k0 v0)).
      { unfold code_page_queries. destruct (_ && _); repeat constructor. }
      destruct r as [e|c1].
      * exists (code_page_queries k0 v0). cbn. split; [done|]. split; [done|].
        by intros c'.
      * destruct (encode_field P (kernel32_GetACP P h) k0 v0) as [e|f0]; [done|].
        destruct H1 as (c1' & [= <-] & Hfield & Hother & Hunt).
        destruct (IH c1 (h ++ code_page_queries k0 v0) Hrec')
          as (qs & Hh & Hall & Hret).
        exists (code_page_queries k0 v0 ++ qs).
        rewrite Hh, <- app_assoc. split; [done|].
        split; [by apply Forall_app|].
        intros c' Hc'. destruct (Hret c' Hc') as [Hu Hk]. split; [congruence|].
        intros k Hnone. rewrite Hk by done. apply Hother. congruence.
    + rewrite CredWrite_key_absent by done. apply IH, Hrec'.
Qed.

Lemma memset_zero c : memset_CREDENTIAL c 0 = zeroed.
Proof. reflexivity. Qed.

Lemma supported_set (P : platform) :
  SUPPORTED_CREDKEYS P ≡ₚ recognized_keys ->
  list_to_set (SUPPORTED_CREDKEYS P) = (list_to_set recognized_keys : gset string).
Proof.
  intros H. apply set_eq. intros k. rewrite !elem_of_list_to_set. by rewrite H.
Qed.

(** The first check of [CredWrite]. *)
Lemma CredWrite_unsupported (P : platform) credential flag h :
  dom credential ∖ list_to_set (SUPPORTED_CREDKEYS P) <> (∅ : gset string) ->
  CredWrite P credential flag h =
    (inl (ValueError (Format "Unsupported keys: {0}"
            (dom credential ∖ list_to_set (SUPPORTED_CREDKEYS P)))), h).
Proof.
  intros Hne. unfold CredWrite.
  destruct (Nat.eqb_spec (size (dom credential ∖ list_to_set (SUPPORTED_CREDKEYS P))) 0)
    as [H0|H0]; [|reflexivity].
  apply size_empty_inv in H0. by apply leibniz_equiv in H0.
Qed.

Lemma unsupported_key (P : platform) (credential : gmap string pyval) key :
  SUPPORTED_CREDKEYS P ≡ₚ recognized_keys ->
  key ∈ dom credential -> key ∉ recognized_keys ->
  dom credential ∖ list_to_set (SUPPORTED_CREDKEYS P) <> (∅ : gset string).
Proof.
  intros Hkeys Hin Hout Hempty.
  assert (Hk : key ∈ dom credential ∖ list_to_set (SUPPORTED_CREDKEYS P)).
  { apply elem_of_difference. split; [done|].
    rewrite elem_of_list_to_set. by rewrite Hkeys. }
  rewrite Hempty in Hk. by apply not_elem_of_empty in Hk.
Qed.

(** Past the first check. *)
Lemma CredWrite_supported (P : platform) credential flag h :
  SUPPORTED_CREDKEYS P ≡ₚ recognized_keys ->
  dom credential ⊆ (list_to_set recognized_keys : gset string) ->
  CredWrite P credential flag h =
    if negb (flag =? 0)
    then (inl (ValueError (Msg "flag != 0 not yet supported")), h)
    else
      bind (foldM (CredWrite_key P credential) (memset_CREDENTIAL zeroed flag)
              (SUPPORTED_CREDKEYS P))
        (fun c_creds => pywin32error (_CredWrite P c_creds 0)) h.
Proof.
  intros Hkeys Hdom. unfold CredWrite.
  rewrite (supported_set P Hkeys).
  assert (dom credential ∖ list_to_set recognized_keys = (∅ : gset string)) as ->.
  { apply set_eq. intros k. rewrite elem_of_difference.
    split; [intros [Hk Hn]; destruct Hn; by apply Hdom | intros Hk; by apply not_elem_of_empty in Hk]. }
  rewrite size_empty. cbn. by destruct (flag =? 0).
Qed.

Lemma pywin32error_history {A} (body : M A) h :
  (pywin32error body h).2 = (body h).2.
Proof.
  unfold pywin32error. destruct (body h) as [[e|a] h']; [|reflexivity].
  by destruct e.
Qed.

Lemma queries_no_blob credential l :
  "CredentialBlob"%string ∉ l -> queries credential l = [].
Proof.
  induction l as [|k0 l IH]; intros Hout; [reflexivity|].
  apply not_elem_of_cons in Hout as [Hne Hout].
  cbn [queries flat_map]. fold (queries credential l). rewrite IH by done.
  destruct (credential !! k0); [|reflexivity].
  by rewrite code_page_queries_other.
Qed.

(** The only calls of the loop of [CredWrite] are those made for the
    secret. *)
Lemma queries_blob credential l value :
  NoDup l -> "CredentialBlob"%string ∈ l ->
  credential !! "CredentialBlob"%string = Some value ->
  queries credential l = code_page_queries "CredentialBlob" value.
Proof.
  intros Hnd Hin Hv. induction l as [|k0 l IH]; [by apply elem_of_nil in Hin|].
  apply NoDup_cons in Hnd as [Hk0 Hnd].
  cbn [queries flat_map]. fold (queries credential l).
  destruct (String.eqb_spec k0 "CredentialBlob") as [->|Hne].
  - rewrite Hv, queries_no_blob by done. apply app_nil_r.
  - apply elem_of_cons in Hin as [Hin|Hin]; [congruence|].
    rewrite IH by done.
    destruct (credential !! k0); [|reflexivity].
    by rewrite code_page_queries_other.
Qed.

(** A write whose values are all stored: the record handed to the native
    write primitive, field by field, and the calls made. *)
Lemma CredWrite_encodes (P : platform) credential h :
  SUPPORTED_CREDKEYS P ≡ₚ recognized_keys ->
  dom credential ⊆ (list_to_set recognized_keys : gset string) ->
  (forall k v, credential !! k = Some v ->
     exists f, encode_field P (kernel32_GetACP P h) k v = inr f) ->
  exists c_creds,
    (CredWrite P credential 0 h).2 =
      h ++ queries credential (SUPPORTED_CREDKEYS P) ++ [Call_CredWrite c_creds 0] /\
    (forall k v, credential !! k = Some v ->
       exists f, encode_field P (kernel32_GetACP P h) k v = inr f /\
         field_of c_creds k = Some f) /\
    (forall k, credential !! k = None -> field_of c_creds k = field_of zeroed k) /\
    untouched c_creds = untouched zeroed.
Proof.
  intros Hkeys Hdom Hok.
  destruct (CredWrite_loop_spec P credential (kernel32_GetACP P h)
              (SUPPORTED_CREDKEYS P) zeroed h)
    as (c' & Hfold & Hset & Hkeep & Hunt).
  { by apply keys_NoDup. }
  { intros k. by apply keys_recognized. }
  { done. }
  { intros k v _. apply Hok. }
  exists c'. split; [|split; [|split; [|done]]].
  - rewrite CredWrite_supported by done. cbn [Z.eqb negb].
    rewrite memset_zero. unfold bind. rewrite Hfold.
    rewrite pywin32error_history. cbn. by rewrite <- app_assoc.
  - intros k v Hv. apply Hset; [|done].
    apply keys_recognized; [done|].
    assert (Hk : k ∈ dom credential) by (apply elem_of_dom; eauto).
    apply Hdom in Hk. by apply elem_of_list_to_set in Hk.
  - intros k Hk. apply Hkeep. by right.
Qed.

(** What the loop stores for a secret that is, or decodes to, the text
    [s]: the length of its UTF-16LE encoding as a [DWORD], and the address of
    the encoding followed by the terminator. *)
Lemma encode_field_blob (P : platform) cp value s f :
  secret_text P cp value = Some s ->
  encode_field P cp "CredentialBlob" value = inr f ->
  f = F_blob (DWORD (Z.of_nat (length (utf_16_le s)))) (Ptr (utf_16_le s ++ [0; 0])).
Proof.
  intros Hs. unfold encode_field. cbn [String.eqb Ascii.eqb Bool.eqb].
  destruct value; try discriminate; cbn in Hs |- *.
  - injection Hs as ->. cbn. unfold cast_LPBYTE.
    rewrite blob_size, blob_memory. by intros [= <-].
  - unfold unicode. rewrite Hs. cbn. unfold cast_LPBYTE.
    rewrite blob_size, blob_memory. by intros [= <-].
Qed.

(** The write of a secret given as text, alone: the size stored is the
    length of the UTF-16LE encoding, as a [DWORD]. *)
Lemma CredWrite_text_blob_size (P : platform) s h :
  SUPPORTED_CREDKEYS P ≡ₚ recognized_keys ->
  exists c_creds,
    (CredWrite P {[ "CredentialBlob"%string := PyStr s ]} 0 h).2 =
      h ++ [Call_CredWrite c_creds 0] /\
    c_CredentialBlobSize c_creds = DWORD (Z.of_nat (length (utf_16_le s))).
Proof.
  intros Hkeys.
  assert (Hblob : "CredentialBlob"%string ∈ recognized_keys).
  { unfold recognized_keys. rewrite !elem_of_cons. tauto. }
  destruct (CredWrite_encodes P {[ "CredentialBlob"%string := PyStr s ]} h Hkeys)
    as (c' & Hh & Hset & _).
  { rewrite dom_singleton_L. intros k Hk%elem_of_singleton. subst k.
    by apply elem_of_list_to_set. }
  { intros k v [<- <-]%lookup_singleton_Some. by eexists. }
  exists c'. split.
  - rewrite Hh, (queries_blob _ _ (PyStr s)).
    + reflexivity.
    + by apply keys_NoDup.
    + by apply keys_recognized.
    + apply lookup_singleton_eq.
  - destruct (Hset "CredentialBlob"%string (PyStr s)) as (f & Hf & Hfield).
    { apply lookup_singleton_eq. }
    apply (encode_field_blob P _ _ s) in Hf; [|reflexivity].
    subst f. cbn in Hfield. by injection Hfield as -> _.
Qed.

Lemma blob_recognized : "CredentialBlob"%string ∈ recognized_keys.
Proof. unfold recognized_keys. rewrite !elem_of_cons. tauto. Qed.

Lemma credential_key_recognized (credential : gmap string pyval) k v :
  dom credential ⊆ (list_to_set recognized_keys : gset string) ->
  credential !! k = Some v -> k ∈ recognized_keys.
Proof.
  intros Hdom Hv.
  assert (Hk : k ∈ dom credential) by (apply elem_of_dom; eauto).
  apply Hdom in Hk. by apply elem_of_list_to_set in Hk.
Qed.

Lemma code_page_queries_cases key value :
  code_page_queries key value = [] \/
  (key = "CredentialBlob"%string /\ code_page_queries key value = [Call_GetACP]).
Proof.
  unfold code_page_queries.
  destruct (String.eqb_spec key "CredentialBlob") as [->|Hne]; cbn; [|by left].
  destruct (is_unicode value); cbn; [by left | by right].
Qed.

(** One turn of the loop, by outcome: the exception is the one of the
    encoding, and a turn that returns has encoded its value. *)
Lemma CredWrite_key_outcome (P : platform) credential c key value h cp :
  key ∈ recognized_keys ->
  credential !! key = Some value ->
  (key = "CredentialBlob"%string -> kernel32_GetACP P h = cp) ->
  (CredWrite_key P credential c key h).2 = h ++ code_page_queries key value /\
  (forall e, (CredWrite_key P credential c key h).1 = inl e ->
     encode_field P cp key value = inl e) /\
  (forall c', (CredWrite_key P credential c key h).1 = inr c' ->
     accepted_field P cp key value = true).
Proof.
  intros Hkey Hv Hcp.
  destruct (CredWrite_key_spec P credential c key value h cp Hkey Hv Hcp) as [H2 H1].
  split; [done|]. unfold accepted_field.
  destruct (encode_field P cp key value) as [e0|f].
  - rewrite H1. split; [congruence | discriminate].
  - destruct H1 as (c1 & -> & _). split; [discriminate | done].
Qed.

(** Without the key of the secret, the loop of [CredWrite] calls nothing,
    whatever the code page. *)
Lemma CredWrite_loop_no_query (P : platform) credential :
  forall l c h,
  (forall k, k ∈ l -> k ∈ recognized_keys) ->
  "CredentialBlob"%string ∉ l ->
  (foldM (CredWrite_key P credential) c l h).2 = h /\
  (forall cp e, (foldM (CredWrite_key P credential) c l h).1 = inl e ->
     exists k v, k ∈ l /\ credential !! k = Some v /\
       encode_field P cp k v = inl e) /\
  (forall cp c', (foldM (CredWrite_key P credential) c l h).1 = inr c' ->
     forall k v, k ∈ l -> credential !! k = Some v ->
       accepted_field P cp k v = true).
Proof.
  induction l as [|k0 l IH]; intros c h Hrec Hout.
  - cbn. split; [done|]. split; [done|]. intros cp c' Hc' k v Hk.
    by apply elem_of_nil in Hk.
  - apply not_elem_of_cons in Hout as [Hne Hout].
    assert (Hrec' : forall k, k ∈ l -> k ∈ recognized_keys)
      by (intros k Hk; apply Hrec; by right).
    cbn [foldM]. unfold bind.
    destruct (credential !! k0) as [v0|] eqn:Hv0.
    + assert (Hstep := fun cp =>
        CredWrite_key_outcome P credential c k0 v0 h cp
          (Hrec k0 ltac:(by left)) Hv0 ltac:(congruence)).
      rewrite code_page_queries_other, app_nil_r in Hstep by congruence.
      destruct (CredWrite_key P credential c k0 h) as [[e0|c1] h1] eqn:Hk0.
      * cbn. split; [by apply (Hstep 0)|]. split; [|discriminate].
        intros cp e [= <-]. exists k0, v0. split; [by left|]. split; [done|].
        by apply (Hstep cp).
      * destruct (Hstep 0) as [H2 _]. cbn in H2. subst h1.
        destruct (IH c1 h Hrec' Hout) as (Hh & Hexn & Hacc). split; [done|].
        split.
        -- intros cp e He. destruct (Hexn cp e He) as (k & v & Hk & Hv & Hf).
           exists k, v. split; [by right|]. done.
        -- intros cp c' Hc' k v Hk Hv. apply elem_of_cons in Hk as [->|Hk].
           ++ assert (v = v0) as -> by congruence. by apply (Hstep cp) with c1.
           ++ by apply (Hacc cp c' Hc').
    + rewrite CredWrite_key_absent by done.
      destruct (IH c h Hrec' Hout) as (Hh & Hexn & Hacc). split; [done|].
      split.
      * intros cp e He. destruct (Hexn cp e He) as (k & v & Hk & Hv & Hf).
        exists k, v. split; [by right|]. done.
      * intros cp c' Hc' k v Hk Hv. apply elem_of_cons in Hk as [->|Hk];
          [congruence|]. by apply (Hacc cp c' Hc').
Qed.

(** The loop of [CredWrite], whatever its outcome: it queries the code page
    at most once; the exception it raises is the one of the encoding of a
    value of the credential; and when it returns, every value was encoded. *)
Lemma CredWrite_loop_outcome (P : platform) credential cp :
  forall l c h,
  NoDup l ->
  (forall k, k ∈ l -> k ∈ recognized_keys) ->
  ("CredentialBlob"%string ∈ l -> kernel32_GetACP P h = cp) ->
  ((foldM (CredWrite_key P credential) c l h).2 = h \/
   (foldM (CredWrite_key P credential) c l h).2 = h ++ [Call_GetACP]) /\
  (forall e, (foldM (CredWrite_key P credential) c l h).1 = inl e ->
     exists k v, k ∈ l /\ credential !! k = Some v /\
       encode_field P cp k v = inl e) /\
  (forall c', (foldM (CredWrite_key P credential) c l h).1 = inr c' ->
     forall k v, k ∈ l -> credential !! k = Some v ->
       accepted_field P cp k v = true).
Proof.
  induction l as [|k0 l IH]; intros c h Hnd Hrec Hcp.
  - cbn. split; [by left|]. split; [done|]. intros c' Hc' k v Hk.
    by apply elem_of_nil in Hk.
  - apply NoDup_cons in Hnd as [Hk0 Hnd].
    assert (Hrec' : forall k, k ∈ l -> k ∈ recognized_keys)
      by (intros k Hk; apply Hrec; by right).
    cbn [foldM]. unfold bind.
    destruct (credential !! k0) as [v0|] eqn:Hv0.
    + destruct (CredWrite_key_outcome P credential c k0 v0 h cp) as (H2 & Hexn0 & Hacc0);
        [apply Hrec; by left | done | intros ->; apply Hcp; by left |].
      destruct (CredWrite_key P credential c k0 h) as [[e0|c1] h1] eqn:Hstep;
        cbn in H2; subst h1.
      * cbn. split; [|split; [|discriminate]].
        -- destruct (code_page_queries_cases k0 v0) as [->|[_ ->]];
             [left; apply app_nil_r | by right].
        -- intros e [= <-]. exists k0, v0. split; [by left|]. split; [done|].
           by apply Hexn0.
      * assert (Hhead : forall k v, k ∈ k0 :: l -> credential !! k = Some v ->
                  (k ∈ l -> accepted_field P cp k v = true) ->
                  accepted_field P cp k v = true).
        { intros k v Hk Hv Htail. apply elem_of_cons in Hk as [->|Hk]; [|auto].
          assert (v = v0) as -> by congruence. by apply Hacc0 with c1. }
        destruct (code_page_queries_cases k0 v0) as [Hq|[-> Hq]]; rewrite Hq.
        -- rewrite app_nil_r.
           destruct (IH c1 h Hnd Hrec') as (Hh & Hexn & Hacc).
           { intros Hb. apply Hcp. by right. }
           split; [done|]. split.
           ++ intros e He. destruct (Hexn e He) as (k & v & Hk & Hv & Hf).
              exists k, v. split; [by right|]. done.
           ++ intros c' Hc' k v Hk Hv. apply (Hhead k v Hk Hv).
              intros Hin. by apply (Hacc c' Hc').
        -- destruct (CredWrite_loop_no_query P credential l c1 (h ++ [Call_GetACP])
                       Hrec' Hk0) as (Hh & Hexn & Hacc).
           split; [by right|]. split.
           ++ intros e He. destruct (Hexn cp e He) as (k & v & Hk & Hv & Hf).
              exists k, v. split; [by right|]. done.
           ++ intros c' Hc' k v Hk Hv. apply (Hhead k v Hk Hv).
              intros Hin. by apply (Hacc cp c' Hc').
    + rewrite CredWrite_key_absent by done.
      destruct (IH c h Hnd Hrec') as (Hh & Hexn & Hacc).
      { intros Hb. apply Hcp. by right. }
      split; [done|]. split.
      * intros e He. destruct (Hexn e He) as (k & v & Hk & Hv & Hf).
        exists k, v. split; [by right|]. done.
      * intros c' Hc' k v Hk Hv. apply elem_of_cons in Hk as [->|Hk];
          [congruence|]. by apply (Hacc c' Hc').
Qed.

Lemma queries_absent credential l :
  credential !! "CredentialBlob"%string = None -> queries credential l = [].
Proof.
  intros Hnone. induction l as [|k0 l IH]; [reflexivity|].
  cbn [queries flat_map]. fold (queries credential l). rewrite IH.
  destruct (credential !! k0) as [v0|] eqn:Hv0; [|reflexivity].
  rewrite code_page_queries_other; [reflexivity | congruence].
Qed.

(** The calls of the loop of a write: none, or one code page query. *)
Lemma queries_cases (P : platform) credential :
  SUPPORTED_CREDKEYS P ≡ₚ recognized_keys ->
  queries credential (SUPPORTED_CREDKEYS P) = [] \/
  queries credential (SUPPORTED_CREDKEYS P) = [Call_GetACP].
Proof.
  intros Hkeys.
  destruct (credential !! "CredentialBlob"%string) as [v|] eqn:Hv.
  - rewrite (queries_blob _ _ v);
      [|by apply keys_NoDup | apply keys_recognized; [done|apply blob_recognized] | done].
    destruct (code_page_queries_cases "CredentialBlob" v) as [->|[_ ->]];
      [by left | by right].
  - left. by apply queries_absent.
Qed.

Lemma queries_order (P : platform) credential :
  SUPPORTED_CREDKEYS P ≡ₚ recognized_keys ->
  queries credential (SUPPORTED_CREDKEYS P) =
    match credential !! "CredentialBlob"%string with
    | Some value => code_page_queries "CredentialBlob" value
    | None => []
    end.
Proof.
  intros Hkeys.
  destruct (credential !! "CredentialBlob"%string) as [v|] eqn:Hv.
  - apply queries_blob;
      [by apply keys_NoDup | apply keys_recognized; [done|apply blob_recognized] | done].
  - by apply queries_absent.
Qed.

(** A write that calls the native write primitive: the loop has returned
    the record handed over, every value was accepted, the flag is 0 and the
    calls before it are those made for the secret. *)
Lemma CredWrite_write_called (P : platform) credential h calls c_creds flag :
  SUPPORTED_CREDKEYS P ≡ₚ recognized_keys ->
  dom credential ⊆ (list_to_set recognized_keys : gset string) ->
  (CredWrite P credential 0 h).2 = h ++ calls ->
  Call_CredWrite c_creds flag ∈ calls ->
  flag = 0 /\
  calls = queries credential (SUPPORTED_CREDKEYS P) ++ [Call_CredWrite c_creds 0] /\
  accepted P (kernel32_GetACP P h) credential.
Proof.
  intros Hkeys Hdom Hcalls Hin.
  rewrite CredWrite_supported in Hcalls by done. cbn [Z.eqb negb] in Hcalls.
  rewrite memset_zero in Hcalls. unfold bind in Hcalls.
  destruct (CredWrite_loop_inv P credential (SUPPORTED_CREDKEYS P) zeroed h)
    as (qs & Hh & Hqs & _).
  { intros k. by apply keys_recognized. }
  destruct (CredWrite_loop_outcome P credential (kernel32_GetACP P h)
              (SUPPORTED_CREDKEYS P) zeroed h)
    as (_ & _ & Hacc).
  { by apply keys_NoDup. }
  { intros k. by apply keys_recognized. }
  { done. }
  assert (Hnot : Call_CredWrite c_creds flag ∉ qs).
  { intros Hq. rewrite Forall_forall in Hqs. by specialize (Hqs _ Hq). }
  destruct (foldM (CredWrite_key P credential) zeroed (SUPPORTED_CREDKEYS P) h)
    as [[e|c'] h1] eqn:Hfold; cbn in Hh, Hacc; subst h1.
  - cbn in Hcalls. apply app_inv_head in Hcalls. by subst calls.
  - rewrite pywin32error_history in Hcalls. cbn in Hcalls.
    rewrite <- app_assoc in Hcalls. apply app_inv_head in Hcalls. subst calls.
    apply elem_of_app in Hin as [Hin|Hin]; [contradiction|].
    apply list_elem_of_singleton in Hin. injection Hin as -> ->.
    assert (Haccepted : accepted P (kernel32_GetACP P h) credential).
    { intros k v Hv. apply (Hacc c' eq_refl k v); [|done].
      apply keys_recognized; [done|]. by eapply credential_key_recognized. }
    split; [done|]. split; [|done].
    destruct (CredWrite_loop_spec P credential (kernel32_GetACP P h)
                (SUPPORTED_CREDKEYS P) zeroed h)
      as (c'' & Hfold' & _).
    { by apply keys_NoDup. }
    { intros k. by apply keys_recognized. }
    { done. }
    { intros k v _ Hv. specialize (Haccepted k v Hv).
      unfold accepted_field in Haccepted.
      destruct (encode_field P (kernel32_GetACP P h) k v) as [e|f]; [done|].
      by exists f. }
    rewrite Hfold in Hfold'. injection Hfold' as _ Hq.
    apply app_inv_head in Hq. by rewrite Hq.
Qed.

End CodecFacts.

(** ** Properties of the store operations *)

Module Win32credFacts.
Import Wide Ctypes Win32cred Codec WideFacts CodecFacts.

Lemma windows_keys : SUPPORTED_CREDKEYS Example.windows ≡ₚ recognized_keys.
Proof. apply (bool_decide_unpack _). vm_compute. exact I. Qed.

Lemma credential_keys :
  dom Example.credential ⊆ (list_to_set recognized_keys : gset string).
Proof. apply (bool_decide_unpack _). vm_compute. exact I. Qed.

Lemma Bogus_unrecognized : "Bogus"%string ∉ recognized_keys.
Proof.
  unfold recognized_keys. rewrite !elem_of_cons, elem_of_nil.
  intuition discriminate.
Qed.

(** C5. A write whose credential has a key outside the recognized set fails
    with the [ValueError] whose message is formatted with the set of the
    offending keys, exactly the keys of the credential that are not
    recognized, and the history is left as it was: no native primitive is
    called. *)
Theorem CredWrite_rejects_unsupported_keys (P : platform) credential flag h key :
  SUPPORTED_CREDKEYS P ≡ₚ recognized_keys ->
  key ∈ dom credential ->
  key ∉ recognized_keys ->
  exists unsupported : gset string,
    CredWrite P credential flag h =
      (inl (ValueError (Format "Unsupported keys: {0}" unsupported)), h) /\
    key ∈ unsupported /\
    forall k, k ∈ unsupported <-> k ∈ dom credential /\ k ∉ recognized_keys.
Proof.
  intros Hkeys Hin Hout.
  exists (dom credential ∖ list_to_set (SUPPORTED_CREDKEYS P)).
  assert (Hall : forall k,
    k ∈ dom credential ∖ list_to_set (SUPPORTED_CREDKEYS P) <->
    k ∈ dom credential /\ k ∉ recognized_keys).
  { intros k. rewrite elem_of_difference, elem_of_list_to_set. by rewrite Hkeys. }
  split; [|split; [by apply Hall | exact Hall]].
  apply CredWrite_unsupported. by eapply unsupported_key.
Qed.

Lemma CredWrite_rejects_unsupported_keys_witness :
  exists unsupported : gset string,
    CredWrite Example.windows (<["Bogus"%string := PyInt 1]> Example.credential) 0 [] =
      (inl (ValueError (Format "Unsupported keys: {0}" unsupported)), []) /\
    "Bogus"%string ∈ unsupported /\
    forall k, k ∈ unsupported <->
      k ∈ dom (<["Bogus"%string := PyInt 1]> Example.credential) /\ k ∉ recognized_keys.
Proof.
  apply (CredWrite_rejects_unsupported_keys Example.windows
           (<["Bogus"%string := PyInt 1]> Example.credential) 0 [] "Bogus").
  - exact windows_keys.
  - apply elem_of_dom. eexists. vm_compute. reflexivity.
  - exact Bogus_unrecognized.
Defined.

(** C6. A write of a credential with recognized keys only and a flag other
    than 0 fails with the [ValueError] of the flag check, and the history is
    left as it was: the native write primitive is not called. *)
Theorem CredWrite_rejects_flag (P : platform) credential flag h :
  SUPPORTED_CREDKEYS P ≡ₚ recognized_keys ->
  dom credential ⊆ (list_to_set recognized_keys : gset string) ->
  flag <> 0 ->
  CredWrite P credential flag h =
    (inl (ValueError (Msg "flag != 0 not yet supported")), h) /\
  writes (CredWrite P credential flag h).2 = writes h.
Proof.
  intros Hkeys Hdom Hflag. rewrite CredWrite_supported by done.
  destruct (Z.eqb_spec flag 0); [contradiction|]. done.
Qed.

Lemma CredWrite_rejects_flag_witness :
  CredWrite Example.windows Example.credential 1 [] =
    (inl (ValueError (Msg "flag != 0 not yet supported")), []) /\
  writes (CredWrite Example.windows Example.credential 1 []).2 = writes [].
Proof.
  apply (CredWrite_rejects_flag Example.windows Example.credential 1 []).
  - exact windows_keys.
  - exact credential_keys.
  - lia.
Defined.

(** C10. In a write, the check of the keys comes before the check of the
    flag: with a key outside the recognized set and a flag other than 0, the
    exception is the one of the unsupported keys, not the one of the flag. *)
Theorem CredWrite_checks_keys_first (P : platform) credential flag h key :
  SUPPORTED_CREDKEYS P ≡ₚ recognized_keys ->
  key ∈ dom credential ->
  key ∉ recognized_keys ->
  flag <> 0 ->
  (CredWrite P credential flag h).1 =
    inl (ValueError (Format "Unsupported keys: {0}"
           (dom credential ∖ list_to_set recognized_keys))) /\
  (CredWrite P credential flag h).1 <>
    inl (ValueError (Msg "flag != 0 not yet supported")).
Proof.
  intros Hkeys Hin Hout _.
  rewrite CredWrite_unsupported by (by eapply unsupported_key).
  rewrite (supported_set P Hkeys). split; [reflexivity | discriminate].
Qed.

Lemma CredWrite_checks_keys_first_witness :
  (CredWrite Example.windows {[ "Bogus"%string := PyInt 1 ]} 1 []).1 =
    inl (ValueError (Format "Unsupported keys: {0}"
           (dom ({[ "Bogus"%string := PyInt 1 ]} : gmap string pyval)
              ∖ list_to_set recognized_keys))) /\
  (CredWrite Example.windows {[ "Bogus"%string := PyInt 1 ]} 1 []).1 <>
    inl (ValueError (Msg "flag != 0 not yet supported")).
Proof.
  apply (CredWrite_checks_keys_first Example.windows
           {[ "Bogus"%string := PyInt 1 ]} 1 [] "Bogus").
  - exact windows_keys.
  - apply elem_of_dom. eexists. vm_compute. reflexivity.
  - exact Bogus_unrecognized.
  - lia.
Defined.

(** C7. A read and a delete with a type other than the generic type 1 fail
    with a [ValueError], and the history is left as it was: no native
    primitive is called. *)
Theorem CredRead_CredDelete_reject_type (P : platform) TargetName Type_ h :
  Type_ <> CRED_TYPE_GENERIC ->
  CredRead P TargetName Type_ h =
    (inl (ValueError (Msg "Type != CRED_TYPE_GENERIC not yet supported")), h) /\
  CredDelete P TargetName Type_ h =
    (inl (ValueError (Msg "Type != CRED_TYPE_GENERIC not yet supported.")), h).
Proof.
  intros Htype. unfold CredRead, CredDelete.
  destruct (Z.eqb_spec Type_ CRED_TYPE_GENERIC); [contradiction|]. done.
Qed.

Lemma CredRead_CredDelete_reject_type_witness :
  CredRead Example.windows [120] 2 [] =
    (inl (ValueError (Msg "Type != CRED_TYPE_GENERIC not yet supported")), []) /\
  CredDelete Example.windows [120] 2 [] =
    (inl (ValueError (Msg "Type != CRED_TYPE_GENERIC not yet supported.")), []).
Proof.
  apply (CredRead_CredDelete_reject_type Example.windows [120] 2 []).
  vm_compute. discriminate.
Defined.

Lemma _CredWrite_call (P : platform) c_creds flag h :
  (pywin32error (_CredWrite P c_creds flag) h).2 = h ++ [Call_CredWrite c_creds flag].
Proof. by rewrite pywin32error_history. Qed.

Lemma only_code_page_queries qs c_creds flag :
  Forall (eq Call_GetACP) qs -> Call_CredWrite c_creds flag ∉ qs.
Proof.
  intros Hqs Hin. rewrite Forall_forall in Hqs. by specialize (Hqs _ Hin).
Qed.

(** C9. In a write that passes the two checks, [memset] leaves every field
    of the record zero, whatever the record held; the loop over the keys
    starts from that zeroed record and the native write primitive is called
    after it, on the record the loop returns. Hence whenever the primitive is
    called, the fields that no key of the credential stands for are still
    zero in the record it is handed. *)
Theorem CredWrite_zeroes_record (P : platform) credential flag h :
  SUPPORTED_CREDKEYS P ≡ₚ recognized_keys ->
  dom credential ⊆ (list_to_set recognized_keys : gset string) ->
  flag = 0 ->
  (forall c, memset_CREDENTIAL c flag = zeroed) /\
  CredWrite P credential flag h =
    bind (foldM (CredWrite_key P credential) zeroed (SUPPORTED_CREDKEYS P))
      (fun c_creds => pywin32error (_CredWrite P c_creds 0)) h /\
  forall c_creds fl calls,
    (CredWrite P credential flag h).2 = h ++ calls ->
    Call_CredWrite c_creds fl ∈ calls ->
    untouched c_creds = untouched zeroed /\
    forall key, credential !! key = None ->
      field_of c_creds key = field_of zeroed key.
Proof.
  intros Hkeys Hdom ->.
  assert (Heq : CredWrite P credential 0 h =
    bind (foldM (CredWrite_key P credential) zeroed (SUPPORTED_CREDKEYS P))
      (fun c_creds => pywin32error (_CredWrite P c_creds 0)) h)
    by (by rewrite CredWrite_supported).
  split; [exact memset_zero|]. split; [exact Heq|].
  intros c_creds fl calls. rewrite Heq. unfold bind.
  destruct (CredWrite_loop_inv P credential (SUPPORTED_CREDKEYS P) zeroed h)
    as (qs & Hh & Hqs & Hret).
  { intros k. by apply keys_recognized. }
  destruct (foldM (CredWrite_key P credential) zeroed (SUPPORTED_CREDKEYS P) h)
    as [[e|c'] h1]; cbn in Hh, Hret; subst h1.
  - cbn. intros Hcalls%app_inv_head Hin. subst calls.
    by apply only_code_page_queries in Hin.
  - rewrite _CredWrite_call, <- app_assoc. intros Hcalls%app_inv_head Hin.
    subst calls. apply elem_of_app in Hin as [Hin|Hin].
    + by apply only_code_page_queries in Hin.
    + apply list_elem_of_singleton in Hin. injection Hin as -> ->.
      by apply Hret.
Qed.

Lemma CredWrite_zeroes_record_witness :
  (forall c, memset_CREDENTIAL c 0 = zeroed) /\
  CredWrite Example.windows Example.credential 0 [] =
    bind (foldM (CredWrite_key Example.windows Example.credential) zeroed
            (SUPPORTED_CREDKEYS Example.windows))
      (fun c_creds => pywin32error (_CredWrite Example.windows c_creds 0)) [] /\
  forall c_creds fl calls,
    (CredWrite Example.windows Example.credential 0 []).2 = [] ++ calls ->
    Call_CredWrite c_creds fl ∈ calls ->
    untouched c_creds = untouched zeroed /\
    forall key, Example.credential !! key = None ->
      field_of c_creds key = field_of zeroed key.
Proof.
  apply (CredWrite_zeroes_record Example.windows Example.credential 0 []).
  - exact windows_keys.
  - exact credential_keys.
  - reflexivity.
Defined.

Lemma mapM_Forall2 {A B} (f : A -> exn + B) l ys :
  Res.mapM f l = inr ys <-> Forall2 (fun x y => f x = inr y) l ys.
Proof.
  revert ys. induction l as [|x l IH]; intros ys; cbn.
  - split; [intros [= <-]; constructor | by inversion 1].
  - destruct (f x) as [e|y] eqn:Hy; cbn.
    + split; [done|]. inversion 1; congruence.
    + destruct (Res.mapM f l) as [e|ys'] eqn:Hys; cbn.
      * split; [done|]. inversion 1 as [|? y' ? ys'' Hy' Hys']; subst.
        apply IH in Hys'. discriminate.
      * split.
        -- intros [= <-]. constructor; [done|]. by apply IH.
        -- inversion 1 as [|? y' ? ys'' Hy' Hys']; subst.
           apply IH in Hys'. congruence.
Qed.

Lemma filterM_total {A} (p : A -> exn + bool) (q : A -> bool) l :
  Forall (fun x => p x = inr (q x)) l ->
  Res.filterM p l = inr (List.filter q l).
Proof.
  induction 1 as [|x l Hx _ IH]; [reflexivity|].
  cbn. rewrite Hx, IH. cbn. by destruct (q x).
Qed.

(** The comprehension of [CredEnumerate] over an array as long as the
    count decodes the elements of the array, in their order. *)
Lemma mapM_decode_at (P : platform) pre rest :
  Res.mapM (decode_at P (Some (pre ++ rest))) (seq (length pre) (length rest)) =
  Res.mapM (fun p => Res.bind (contents p) (_cred_as_dict P)) rest.
Proof.
  revert pre. induction rest as [|p rest IH]; intros pre; [reflexivity|].
  cbn [length seq Res.mapM]. unfold decode_at at 1. cbn [index].
  rewrite list_lookup_middle by done. cbn [Res.bind].
  specialize (IH (pre ++ [p])). rewrite <- app_assoc, length_app in IH.
  cbn [app length] in IH. rewrite Nat.add_1_r in IH. by rewrite IH.
Qed.

(** A decoded credential holds, under Type, the type of the record. *)
Lemma decoded_Type (P : platform) c d :
  SUPPORTED_CREDKEYS P ≡ₚ recognized_keys ->
  _cred_as_dict P c = inr d ->
  d !! "Type"%string = Some (PyInt (c_Type c)).
Proof.
  intros Hkeys Hd.
  destruct (_cred_as_dict_loop_spec c (SUPPORTED_CREDKEYS P) ∅ d) as (_ & Hin & _).
  { intros k. by apply keys_recognized. }
  { exact Hd. }
  destruct (Hin "Type"%string) as (f & v & Hf & Hv & Hlook).
  { apply keys_recognized; [done|]. by left. }
  cbn in Hf. injection Hf as <-. cbn in Hv. by injection Hv as <-.
Qed.

Lemma is_generic_decoded (P : platform) p d :
  SUPPORTED_CREDKEYS P ≡ₚ recognized_keys ->
  Res.bind (contents p) (_cred_as_dict P) = inr d ->
  is_generic d = inr (generic d).
Proof.
  intros Hkeys Hd. destruct p as [c|]; [|done]. cbn in Hd.
  unfold is_generic, generic. by rewrite (decoded_Type P c d Hkeys Hd).
Qed.

(** C4. When the native enumeration returns an array of records that all
    decode, [CredEnumerate] returns the decoded credentials whose Type is the
    generic type 1, exactly those and in the order of the array; a decoded
    credential passes the test when the Type of its record is 1. The filter
    runs on the complete list of decoded credentials, after the array has
    been released. *)
Theorem CredEnumerate_keeps_generic_in_order (P : platform) Filter Flags h arr creds :
  SUPPORTED_CREDKEYS P ≡ₚ recognized_keys ->
  advapi32_CredEnumerate P h Filter Flags = inr (Z.of_nat (length arr), Some arr) ->
  Forall2 (fun p cred => Res.bind (contents p) (_cred_as_dict P) = inr cred) arr creds ->
  CredEnumerate P Filter Flags h =
    (inr (List.filter generic creds),
     h ++ [Call_CredEnumerate Filter Flags; Call_CredFree (Array_at (Some arr))]) /\
  Forall2
    (fun p cred =>
       exists c, p = Some c /\ generic cred = (c_Type c =? CRED_TYPE_GENERIC))
    arr creds.
Proof.
  intros Hkeys Hnative Hall. split.
  - unfold CredEnumerate, bind, pywin32error, _CredEnumerate, native.
    rewrite Hnative. cbn -[Res.mapM Res.filterM seq Z.to_nat].
    unfold try_finally, lift, _CredFree.
    rewrite Nat2Z.id. pose proof (mapM_decode_at P [] arr) as Hm.
    cbn [app length] in Hm. rewrite Hm. clear Hm.
    apply mapM_Forall2 in Hall as Hmap. rewrite Hmap.
    rewrite (filterM_total _ generic).
    + by rewrite <- app_assoc.
    + clear Hmap Hnative.
      induction Hall as [|p d arr' creds' Hd _ IH]; constructor.
      * exact (is_generic_decoded P p d Hkeys Hd).
      * apply IH.
  - clear Hnative.
    induction Hall as [|p d arr' creds' Hd _ IH]; constructor; [|exact IH].
    destruct p as [c|]; [|done]. cbn in Hd. exists c. split; [done|].
    unfold generic. by rewrite (decoded_Type P c d Hkeys Hd).
Qed.

Lemma CredEnumerate_keeps_generic_in_order_witness :
  let a := Example.decoded (Example.stored 1 [97]) in
  let b := Example.decoded (Example.stored 2 [98]) in
  let c := Example.decoded (Example.stored 1 [99]) in
  let arr := [Some (Example.stored 1 [97]); Some (Example.stored 2 [98]);
              Some (Example.stored 1 [99])] in
  CredEnumerate Example.windows None 0 [] =
    (inr (List.filter generic [a; b; c]),
     [] ++ [Call_CredEnumerate None 0; Call_CredFree (Array_at (Some arr))]) /\
  Forall2
    (fun p cred =>
       exists c, p = Some c /\ generic cred = (c_Type c =? CRED_TYPE_GENERIC))
    arr [a; b; c].
Proof.
  intros a b c arr.
  apply (CredEnumerate_keeps_generic_in_order Example.windows None 0 [] arr [a; b; c]).
  - exact windows_keys.
  - reflexivity.
  - repeat constructor; vm_compute; reflexivity.
Defined.

(** Of the three records enumerated, the first and the third are generic. *)
Lemma enumerated_generic :
  let a := Example.decoded (Example.stored 1 [97]) in
  let b := Example.decoded (Example.stored 2 [98]) in
  let c := Example.decoded (Example.stored 1 [99]) in
  List.filter generic [a; b; c] = [a; c] /\
  a !! "TargetName"%string = Some (PyStr [97]) /\
  c !! "TargetName"%string = Some (PyStr [99]).
Proof.
  intros a b c.
  assert (Ha : generic a = true) by (vm_compute; reflexivity).
  assert (Hb : generic b = false) by (vm_compute; reflexivity).
  assert (Hc : generic c = true) by (vm_compute; reflexivity).
  split; [|split; vm_compute; reflexivity].
  unfold List.filter. by rewrite Ha, Hb, Hc.
Qed.

(** C3. When the native read succeeds, [CredRead] calls [_CredFree] once,
    on the pointer it was given, and its outcome is the outcome of the
    decoding: the credential, or the exception the decoding raised. When the
    native enumeration succeeds, [CredEnumerate] calls [_CredFree] once, on
    the array it was given, and an exception raised by the decoding of a
    record is the exception of the call. *)
Theorem native_memory_released_once (P : platform)
    TargetName h p Filter Flags h' c_count c_ppcreds :
  advapi32_CredRead P h TargetName CRED_TYPE_GENERIC 0 = inr p ->
  advapi32_CredEnumerate P h' Filter Flags = inr (c_count, c_ppcreds) ->
  (CredRead P TargetName CRED_TYPE_GENERIC h =
     (Res.bind (contents p) (_cred_as_dict P),
      h ++ [Call_CredRead TargetName CRED_TYPE_GENERIC 0;
            Call_CredFree (Record_at p)]) /\
   releases (CredRead P TargetName CRED_TYPE_GENERIC h).2 = S (releases h)) /\
  ((CredEnumerate P Filter Flags h').2 =
     h' ++ [Call_CredEnumerate Filter Flags; Call_CredFree (Array_at c_ppcreds)] /\
   releases (CredEnumerate P Filter Flags h').2 = S (releases h') /\
   forall e,
     Res.mapM (decode_at P c_ppcreds) (seq 0 (Z.to_nat c_count)) = inl e ->
     (CredEnumerate P Filter Flags h').1 = inl e).
Proof.
  intros Hread Henum. split.
  - assert (Heq : CredRead P TargetName CRED_TYPE_GENERIC h =
      (Res.bind (contents p) (_cred_as_dict P),
       h ++ [Call_CredRead TargetName CRED_TYPE_GENERIC 0;
             Call_CredFree (Record_at p)])).
    { unfold CredRead. rewrite Z.eqb_refl. cbn [negb]. cbv zeta.
      unfold bind, pywin32error, _CredRead, native.
      rewrite Hread. cbn. unfold try_finally, lift, _CredFree.
      by rewrite <- app_assoc. }
    split; [exact Heq|]. rewrite Heq. cbn [snd].
    rewrite releases_app. unfold releases at 2. cbn. lia.
  - unfold CredEnumerate, bind, pywin32error, _CredEnumerate, native.
    rewrite Henum. cbn -[Res.mapM Res.filterM seq Z.to_nat].
    unfold try_finally, lift, _CredFree.
    destruct (Res.mapM (decode_at P c_ppcreds) (seq 0 (Z.to_nat c_count)))
      as [e|creds].
    + cbn [fst snd]. rewrite <- app_assoc. split; [reflexivity|].
      split; [|by intros e' [= <-]].
      rewrite releases_app. unfold releases at 2. cbn. lia.
    + cbn [fst snd]. rewrite <- app_assoc. split; [reflexivity|].
      split; [|discriminate].
      rewrite releases_app. unfold releases at 2. cbn. lia.
Qed.

Lemma native_memory_released_once_witness :
  (CredRead Example.windows [109] CRED_TYPE_GENERIC [] =
     (Res.bind (contents (Some Example.malformed)) (_cred_as_dict Example.windows),
      [] ++ [Call_CredRead [109] CRED_TYPE_GENERIC 0;
             Call_CredFree (Record_at (Some Example.malformed))]) /\
   releases (CredRead Example.windows [109] CRED_TYPE_GENERIC []).2 = S (releases [])) /\
  ((CredEnumerate Example.windows (Some []) 0 []).2 =
     [] ++ [Call_CredEnumerate (Some []) 0;
            Call_CredFree
              (Array_at (Some [Some (Example.stored 2 [98]); Some Example.malformed]))] /\
   releases (CredEnumerate Example.windows (Some []) 0 []).2 = S (releases []) /\
   forall e,
     Res.mapM
       (decode_at Example.windows
          (Some [Some (Example.stored 2 [98]); Some Example.malformed]))
       (seq 0 (Z.to_nat 2)) = inl e ->
     (CredEnumerate Example.windows (Some []) 0 []).1 = inl e).
Proof.
  apply (native_memory_released_once Example.windows [109] []
           (Some Example.malformed) (Some []) 0 [] 2
           (Some [Some (Example.stored 2 [98]); Some Example.malformed])).
  - reflexivity.
  - reflexivity.
Defined.

(** The decoding of the malformed record raises. *)
Lemma malformed_raises :
  Res.bind (contents (Some Example.malformed)) (_cred_as_dict Example.windows) =
    inl AccessViolation /\
  (CredEnumerate Example.windows (Some []) 0 []).1 = inl AccessViolation.
Proof. split; vm_compute; reflexivity. Qed.

(** C8. A credential that [_cred_as_dict] returns has the six recognized
    keys, and under CredentialBlob the bytes, as many as CredentialBlobSize
    says, found at the blob pointer of the record decoded. So has the
    credential a read returns, for the record the native read gave; so has
    each credential an enumeration decodes, for the record at its index of
    the native array, and each one it returns, for the record at some index
    below the count. *)
Theorem decoded_credential_complete (P : platform) :
  SUPPORTED_CREDKEYS P ≡ₚ recognized_keys ->
  (forall c d, _cred_as_dict P c = inr d -> complete c d) /\
  (forall TargetName Type_ h d h',
     CredRead P TargetName Type_ h = (inr d, h') ->
     exists c, advapi32_CredRead P h TargetName Type_ 0 = inr (Some c) /\ complete c d) /\
  (forall Filter Flags h c_count c_ppcreds creds,
     advapi32_CredEnumerate P h Filter Flags = inr (c_count, c_ppcreds) ->
     Res.mapM (decode_at P c_ppcreds) (seq 0 (Z.to_nat c_count)) = inr creds ->
     Forall2
       (fun i d => exists c, index c_ppcreds i = inr (Some c) /\ complete c d)
       (seq 0 (Z.to_nat c_count)) creds /\
     exists kept, (CredEnumerate P Filter Flags h).1 = inr kept /\
       Forall
         (fun d => exists i c, (i < Z.to_nat c_count)%nat /\
            index c_ppcreds i = inr (Some c) /\ complete c d)
         kept).
Proof.
  intros Hkeys.
  assert (Hdecode : forall c d, _cred_as_dict P c = inr d -> complete c d).
  { intros c d Hd.
    destruct (_cred_as_dict_loop_spec c (SUPPORTED_CREDKEYS P) ∅ d) as (Hdom & Hin & _).
    { intros k. by apply keys_recognized. }
    { exact Hd. }
    split.
    - rewrite Hdom, dom_empty_L, (left_id_L ∅ (∪)). by apply supported_set.
    - destruct (Hin "CredentialBlob"%string) as (f & v & Hf & Hv & Hlook).
      { apply keys_recognized; [done|]. apply blob_recognized. }
      cbn in Hf. injection Hf as <-. cbn in Hv.
      apply _PyBytes_FromStringAndSize_inv in Hv as (blob & -> & Hlen & Hblob).
      by exists blob. }
  assert (Heach : forall p d,
    Res.bind (contents p) (_cred_as_dict P) = inr d -> exists c, p = Some c /\ complete c d).
  { intros [c|] d Hd; [|done]. exists c. split; [done|]. by apply Hdecode. }
  assert (Hat : forall pp i d,
    decode_at P pp i = inr d -> exists c, index pp i = inr (Some c) /\ complete c d).
  { intros pp i d Hd. unfold decode_at in Hd.
    destruct (index pp i) as [e|p]; [done|]. cbn in Hd.
    destruct (Heach p d Hd) as (c & -> & Hc). by exists c. }
  split; [exact Hdecode|]. split.
  - intros TargetName Type_ h d h' Hread. unfold CredRead in Hread.
    destruct (negb (Type_ =? CRED_TYPE_GENERIC)); [done|].
    unfold bind, pywin32error, _CredRead, native in Hread.
    destruct (advapi32_CredRead P h TargetName Type_ 0) as [code|p]; [done|].
    cbn in Hread. unfold try_finally, lift, _CredFree in Hread.
    injection Hread as Hd _.
    destruct (Heach p d Hd) as (c & -> & Hc). by exists c.
  - intros Filter Flags h c_count c_ppcreds creds Hnative Hcreds.
    assert (Hall : Forall2
      (fun i d => exists c, index c_ppcreds i = inr (Some c) /\ complete c d)
      (seq 0 (Z.to_nat c_count)) creds).
    { apply mapM_Forall2 in Hcreds.
      induction Hcreds as [|i d l creds' Hd _ IH]; [constructor|].
      constructor; [by apply Hat | exact IH]. }
    split; [exact Hall|].
    assert (Hgen : Forall (fun d => is_generic d = inr (generic d)) creds).
    { clear Hall. apply mapM_Forall2 in Hcreds.
      induction Hcreds as [|i d l creds' Hd _ IH]; [constructor|].
      constructor; [|exact IH].
      unfold decode_at in Hd.
      destruct (index c_ppcreds i) as [e|p]; [done|]. cbn in Hd.
      exact (is_generic_decoded P p d Hkeys Hd). }
    exists (List.filter generic creds). split.
    + unfold CredEnumerate, bind, pywin32error, _CredEnumerate, native.
      rewrite Hnative. cbn -[Res.mapM Res.filterM seq Z.to_nat].
      unfold try_finally, lift, _CredFree. rewrite Hcreds.
      by rewrite (filterM_total _ generic).
    + apply Forall_forall. intros d Hd%list_elem_of_In.
      apply filter_In in Hd as [Hd%list_elem_of_In _].
      apply list_elem_of_lookup in Hd as [n Hn].
      destruct (Forall2_lookup_r _ _ _ _ _ Hall Hn) as (i & Hi & c & Hidx & Hc).
      exists i, c. split; [|done].
      apply lookup_seq in Hi as [-> Hlt]. lia.
Qed.

Lemma decoded_credential_complete_witness :
  (forall c d, _cred_as_dict Example.windows c = inr d -> complete c d) /\
  (forall TargetName Type_ h d h',
     CredRead Example.windows TargetName Type_ h = (inr d, h') ->
     exists c, advapi32_CredRead Example.windows h TargetName Type_ 0 = inr (Some c) /\
       complete c d) /\
  (forall Filter Flags h c_count c_ppcreds creds,
     advapi32_CredEnumerate Example.windows h Filter Flags = inr (c_count, c_ppcreds) ->
     Res.mapM (decode_at Example.windows c_ppcreds) (seq 0 (Z.to_nat c_count)) = inr creds ->
     Forall2
       (fun i d => exists c, index c_ppcreds i = inr (Some c) /\ complete c d)
       (seq 0 (Z.to_nat c_count)) creds /\
     exists kept, (CredEnumerate Example.windows Filter Flags h).1 = inr kept /\
       Forall
         (fun d => exists i c, (i < Z.to_nat c_count)%nat /\
            index c_ppcreds i = inr (Some c) /\ complete c d)
         kept).
Proof.
  apply (decoded_credential_complete Example.windows).
  exact windows_keys.
Defined.

(** A read that returns: the credential of the first example target. *)
Lemma CredRead_returns :
  let d := Example.decoded (Example.stored 1 [97]) in
  CredRead Example.windows [97] CRED_TYPE_GENERIC [] =
    (inr d, [Call_CredRead [97] 1 0;
             Call_CredFree (Record_at (Some (Example.stored 1 [97])))]) /\
  d !! "CredentialBlob"%string = Some (PyBytes [112; 0; 119; 0]) /\
  d !! "UserName"%string = Some (PyStr [98; 111; 98]) /\
  d !! "Comment"%string = Some PyNone.
Proof. intros d. repeat split; vm_compute; reflexivity. Qed.

(** C1, as amended. For a credential whose keys are recognized and whose
    values fit the native fields (integers of 32 bits for Type and Persist;
    [None] or text of characters without NUL for the names; a secret, text or
    bytes that decode under the code page, whose UTF-16LE encoding is shorter
    than 2^32 bytes), the write hands the native primitive a record whose
    decoding returns, for every key of the credential, its value unchanged,
    except that CredentialBlob holds the UTF-16LE bytes of the secret text,
    without terminator; the keys the credential does not have hold the
    defaults of the zeroed record. *)
Theorem codec_round_trip_of_fitting_values (P : platform) credential h :
  SUPPORTED_CREDKEYS P ≡ₚ recognized_keys ->
  dom credential ⊆ (list_to_set recognized_keys : gset string) ->
  fits P (kernel32_GetACP P h) credential ->
  exists c_creds d,
    (CredWrite P credential 0 h).2 =
      h ++ queries credential (SUPPORTED_CREDKEYS P) ++ [Call_CredWrite c_creds 0] /\
    _cred_as_dict P c_creds = inr d /\
    (forall key value, credential !! key = Some value ->
       d !! key = Some (round_trip P (kernel32_GetACP P h) key value)) /\
    (forall key, key ∈ recognized_keys -> credential !! key = None ->
       d !! key = Some (default key)).
Proof.
  intros Hkeys Hdom Hfits.
  set (cp := kernel32_GetACP P h) in *.
  assert (Hrec : forall k v, credential !! k = Some v -> k ∈ recognized_keys).
  { intros k v Hv.
    assert (Hk : k ∈ dom credential) by (apply elem_of_dom; eauto).
    apply Hdom in Hk. by apply elem_of_list_to_set in Hk. }
  assert (Hfield : forall k v, credential !! k = Some v ->
    exists f, encode_field P cp k v = inr f /\
      decode_field f = inr (round_trip P cp k v)).
  { intros k v Hv. apply field_round_trip; [by eapply Hrec|]. exact (Hfits k v Hv). }
  destruct (CredWrite_encodes P credential h Hkeys Hdom)
    as (c' & Hh & Hset & Hkeep & _).
  { intros k v Hv. destruct (Hfield k v Hv) as (f & Hf & _). by exists f. }
  fold cp in Hset.
  assert (Hdec : forall k, k ∈ recognized_keys ->
    exists f, field_of c' k = Some f /\
      decode_field f =
        inr (match credential !! k with
             | Some value => round_trip P cp k value
             | None => default k
             end)).
  { intros k Hk. destruct (credential !! k) as [v|] eqn:Hv.
    - destruct (Hset k v Hv) as (f & Hf & Hfo).
      destruct (Hfield k v Hv) as (f' & Hf' & Hd).
      exists f. split; [done|]. congruence.
    - rewrite (Hkeep k Hv). by apply zeroed_field. }
  destruct (_cred_as_dict_loop_returns c' (SUPPORTED_CREDKEYS P) ∅) as [d Hd].
  { intros k. by apply keys_recognized. }
  { intros k f Hk%(keys_recognized P k Hkeys) Hf.
    destruct (Hdec k Hk) as (f' & Hf' & Hv). eexists. by replace f with f' by congruence. }
  exists c', d. split; [exact Hh|]. split; [exact Hd|].
  destruct (_cred_as_dict_loop_spec c' (SUPPORTED_CREDKEYS P) ∅ d) as (_ & Hin & _).
  { intros k. by apply keys_recognized. }
  { exact Hd. }
  assert (Hlook : forall k, k ∈ recognized_keys ->
    d !! k = Some (match credential !! k with
                   | Some value => round_trip P cp k value
                   | None => default k
                   end)).
  { intros k Hk. destruct (Hin k) as (f & v & Hf & Hv & Hlook);
      [by apply keys_recognized|].
    destruct (Hdec k Hk) as (f' & Hf' & Hv'). rewrite Hlook. congruence. }
  split.
  - intros key value Hv. rewrite Hlook by (by eapply Hrec). by rewrite Hv.
  - intros key Hk Hv. rewrite Hlook by done. by rewrite Hv.
Qed.

Lemma fits_example :
  fits Example.windows (kernel32_GetACP Example.windows []) Example.credential.
Proof. apply (bool_decide_unpack _). vm_compute. exact I. Qed.

Lemma codec_round_trip_of_fitting_values_witness :
  exists c_creds d,
    (CredWrite Example.windows Example.credential 0 []).2 =
      [] ++ queries Example.credential (SUPPORTED_CREDKEYS Example.windows)
         ++ [Call_CredWrite c_creds 0] /\
    _cred_as_dict Example.windows c_creds = inr d /\
    (forall key value, Example.credential !! key = Some value ->
       d !! key =
         Some (round_trip Example.windows (kernel32_GetACP Example.windows [])
                 key value)) /\
    (forall key, key ∈ recognized_keys -> Example.credential !! key = None ->
       d !! key = Some (default key)).
Proof.
  apply (codec_round_trip_of_fitting_values Example.windows Example.credential []).
  - exact windows_keys.
  - exact credential_keys.
  - exact fits_example.
Defined.

(** Why the names must be [None] or text of characters: an integer stored
    in a name is taken as an address, and 0 reads back as [None]; two
    surrogates that pair read back as one character. *)
Lemma name_not_reproduced :
  (exists c_creds,
     CredWrite Example.windows {[ "Comment"%string := PyInt 0 ]} 0 [] =
       (inr tt, [Call_CredWrite c_creds 0]) /\
     Example.decoded c_creds !! "Comment"%string = Some PyNone) /\
  (exists c_creds,
     CredWrite Example.windows {[ "Comment"%string := PyStr [55296; 56320] ]} 0 [] =
       (inr tt, [Call_CredWrite c_creds 0]) /\
     Example.decoded c_creds !! "Comment"%string = Some (PyStr [65536])).
Proof.
  split.
  - exists zeroed. split; vm_compute; reflexivity.
  - exists (set_Comment (Ptr [0; 216; 0; 220; 0; 0]) zeroed).
    split; vm_compute; reflexivity.
Qed.

(** A Type above 32 bits is not reproduced: 4294967297 comes back as 1. *)
Lemma Type_above_32_bits_not_reproduced :
  let credential : gmap string pyval := {[ "Type"%string := PyInt 4294967297 ]} in
  let c_creds := set_Type 1 zeroed in
  let d := Example.decoded c_creds in
  dom credential ⊆ (list_to_set recognized_keys : gset string) /\
  CredWrite Example.windows credential 0 [] = (inr tt, [Call_CredWrite c_creds 0]) /\
  _cred_as_dict Example.windows c_creds = inr d /\
  credential !! "Type"%string = Some (PyInt 4294967297) /\
  d !! "Type"%string = Some (PyInt 1) /\
  d !! "Type"%string <> credential !! "Type"%string.
Proof.
  intros credential c_creds d.
  split; [apply (bool_decide_unpack _); vm_compute; exact I|].
  repeat split; try (vm_compute; reflexivity).
  vm_compute. discriminate.
Qed.

(** C2, as amended. In a write of a credential with recognized keys, a
    secret given as text is encoded without any code page query, and a secret
    given as bytes is first decoded under the code page that [GetACP]
    answers. When the UTF-16LE encoding of the text is shorter than 2^32
    bytes, every record handed to the native write primitive holds, as
    CredentialBlobSize, the byte length of that encoding, which does not
    count the terminator (twice the number of characters for text of the
    basic plane), and as CredentialBlob the address of the encoding; and the
    primitive is called whenever every value is stored without raising. When
    the bytes do not decode under the code page, the write raises and the
    native write primitive is not called. *)
Theorem blob_encoding_rule (P : platform) credential h value :
  SUPPORTED_CREDKEYS P ≡ₚ recognized_keys ->
  dom credential ⊆ (list_to_set recognized_keys : gset string) ->
  credential !! "CredentialBlob"%string = Some value ->
  (forall s,
     secret_text P (kernel32_GetACP P h) value = Some s ->
     Z.of_nat (length (utf_16_le s)) < 2 ^ 32 ->
     (forall calls c_creds flag,
        (CredWrite P credential 0 h).2 = h ++ calls ->
        Call_CredWrite c_creds flag ∈ calls ->
        calls = (if is_unicode value then [] else [Call_GetACP])
                  ++ [Call_CredWrite c_creds 0] /\
        c_CredentialBlobSize c_creds = Z.of_nat (length (utf_16_le s)) /\
        c_CredentialBlob c_creds = Ptr (utf_16_le s ++ [0; 0]) /\
        (Forall bmp s -> c_CredentialBlobSize c_creds = 2 * Z.of_nat (length s))) /\
     (accepted P (kernel32_GetACP P h) credential ->
      exists c_creds,
        (CredWrite P credential 0 h).2 =
          h ++ (if is_unicode value then [] else [Call_GetACP])
            ++ [Call_CredWrite c_creds 0])) /\
  (forall b,
     value = PyBytes b ->
     codec_decode P (kernel32_GetACP P h) b = None ->
     exists e h',
       CredWrite P credential 0 h = (inl e, h') /\ writes h' = writes h).
Proof.
  intros Hkeys Hdom Hvalue.
  assert (Hqueries : queries credential (SUPPORTED_CREDKEYS P) =
            if is_unicode value then [] else [Call_GetACP]).
  { rewrite (queries_blob _ _ value);
      [|by apply keys_NoDup
       |apply keys_recognized; [done|apply blob_recognized]
       |done].
    unfold code_page_queries. cbn. by destruct (is_unicode value). }
  assert (Hwritten : accepted P (kernel32_GetACP P h) credential ->
    exists c',
      (CredWrite P credential 0 h).2 =
        h ++ queries credential (SUPPORTED_CREDKEYS P) ++ [Call_CredWrite c' 0] /\
      forall s, secret_text P (kernel32_GetACP P h) value = Some s ->
        field_of c' "CredentialBlob" =
          Some (F_blob (DWORD (Z.of_nat (length (utf_16_le s))))
                  (Ptr (utf_16_le s ++ [0; 0])))).
  { intros Hacc.
    destruct (CredWrite_encodes P credential h Hkeys Hdom)
      as (c' & Hh & Hset & _).
    { intros k v Hv. specialize (Hacc k v Hv). unfold accepted_field in Hacc.
      destruct (encode_field P (kernel32_GetACP P h) k v) as [e|f]; [done|].
      by exists f. }
    exists c'. split; [exact Hh|]. intros s Hs.
    destruct (Hset _ _ Hvalue) as (f & Hf & Hfield).
    apply (encode_field_blob P _ _ s _ Hs) in Hf. by subst f. }
  split.
  - intros s Hs Hsmall. split.
    + intros calls c_creds flag Hcalls Hin.
      destruct (CredWrite_write_called P credential h calls c_creds flag
                  Hkeys Hdom Hcalls Hin) as (-> & -> & Hacc).
      destruct (Hwritten Hacc) as (c' & Hh & Hfield).
      rewrite Hh in Hcalls. apply app_inv_head in Hcalls.
      apply app_inj_tail in Hcalls as [_ [= ->]].
      specialize (Hfield s Hs). cbn in Hfield. injection Hfield as Hsize Hptr.
      rewrite DWORD_small in Hsize by lia.
      rewrite Hqueries. split; [done|]. split; [done|]. split; [done|].
      intros Hbmp.
      by rewrite Hsize, length_utf_16_le, length_as_wide_char_bmp.
    + intros Hacc. destruct (Hwritten Hacc) as (c' & Hh & _).
      exists c'. by rewrite Hh, Hqueries.
  - intros b -> Hfail.
    rewrite CredWrite_supported by done. cbn [Z.eqb negb].
    rewrite memset_zero. unfold bind.
    destruct (CredWrite_loop_decode_failure P credential b Hvalue
                (SUPPORTED_CREDKEYS P) zeroed h) as (e & h' & Hfold & Hw).
    + intros k. by apply keys_recognized.
    + apply keys_recognized; [done|]. apply blob_recognized.
    + done.
    + rewrite Hfold. by exists e, h'.
Qed.

Lemma credential_bytes_keys :
  dom Example.credential_bytes ⊆ (list_to_set recognized_keys : gset string).
Proof. apply (bool_decide_unpack _). vm_compute. exact I. Qed.

Lemma blob_encoding_rule_witness :
  ((forall s,
      secret_text Example.windows (kernel32_GetACP Example.windows [])
        (PyStr Example.password) = Some s ->
      Z.of_nat (length (utf_16_le s)) < 2 ^ 32 ->
      (forall calls c_creds flag,
         (CredWrite Example.windows Example.credential 0 []).2 = [] ++ calls ->
         Call_CredWrite c_creds flag ∈ calls ->
         calls = (if is_unicode (PyStr Example.password) then [] else [Call_GetACP])
                   ++ [Call_CredWrite c_creds 0] /\
         c_CredentialBlobSize c_creds = Z.of_nat (length (utf_16_le s)) /\
         c_CredentialBlob c_creds = Ptr (utf_16_le s ++ [0; 0]) /\
         (Forall bmp s -> c_CredentialBlobSize c_creds = 2 * Z.of_nat (length s))) /\
      (accepted Example.windows (kernel32_GetACP Example.windows [])
         Example.credential ->
       exists c_creds,
         (CredWrite Example.windows Example.credential 0 []).2 =
           [] ++ (if is_unicode (PyStr Example.password) then [] else [Call_GetACP])
              ++ [Call_CredWrite c_creds 0])) /\
   (forall b,
      PyStr Example.password = PyBytes b ->
      codec_decode Example.windows (kernel32_GetACP Example.windows []) b = None ->
      exists e h',
        CredWrite Example.windows Example.credential 0 [] = (inl e, h') /\
        writes h' = writes [])) /\
  ((forall s,
      secret_text Example.windows (kernel32_GetACP Example.windows [])
        (PyBytes [112; 128]) = Some s ->
      Z.of_nat (length (utf_16_le s)) < 2 ^ 32 ->
      (forall calls c_creds flag,
         (CredWrite Example.windows Example.credential_bytes 0 []).2 = [] ++ calls ->
         Call_CredWrite c_creds flag ∈ calls ->
         calls = (if is_unicode (PyBytes [112; 128]) then [] else [Call_GetACP])
                   ++ [Call_CredWrite c_creds 0] /\
         c_CredentialBlobSize c_creds = Z.of_nat (length (utf_16_le s)) /\
         c_CredentialBlob c_creds = Ptr (utf_16_le s ++ [0; 0]) /\
         (Forall bmp s -> c_CredentialBlobSize c_creds = 2 * Z.of_nat (length s))) /\
      (accepted Example.windows (kernel32_GetACP Example.windows [])
         Example.credential_bytes ->
       exists c_creds,
         (CredWrite Example.windows Example.credential_bytes 0 []).2 =
           [] ++ (if is_unicode (PyBytes [112; 128]) then [] else [Call_GetACP])
              ++ [Call_CredWrite c_creds 0])) /\
   (forall b,
      PyBytes [112; 128] = PyBytes b ->
      codec_decode Example.windows (kernel32_GetACP Example.windows []) b = None ->
      exists e h',
        CredWrite Example.windows Example.credential_bytes 0 [] = (inl e, h') /\
        writes h' = writes [])).
Proof.
  split.
  - apply (blob_encoding_rule Example.windows Example.credential []
             (PyStr Example.password)).
    + exact windows_keys.
    + exact credential_keys.
    + vm_compute. reflexivity.
  - apply (blob_encoding_rule Example.windows Example.credential_bytes []
             (PyBytes [112; 128])).
    + exact windows_keys.
    + exact credential_bytes_keys.
    + vm_compute. reflexivity.
Defined.

(** The hypotheses on the secret given as bytes hold, and its write is the
    one the rule gives: the text "p€", four bytes, after one code page
    query. *)
Lemma bytes_accepted :
  secret_text Example.windows (kernel32_GetACP Example.windows [])
    (PyBytes [112; 128]) = Some [112; 8364] /\
  accepted Example.windows (kernel32_GetACP Example.windows [])
    Example.credential_bytes /\
  Z.of_nat (length (utf_16_le [112; 8364])) < 2 ^ 32 /\
  exists c_creds,
    CredWrite Example.windows Example.credential_bytes 0 [] =
      (inr tt, [Call_GetACP; Call_CredWrite c_creds 0]) /\
    c_CredentialBlobSize c_creds = 4 /\
    c_CredentialBlob c_creds = Ptr [112; 0; 172; 32; 0; 0].
Proof.
  split; [vm_compute; reflexivity|].
  split; [apply (bool_decide_unpack _); vm_compute; exact I|].
  split; [vm_compute; reflexivity|].
  exists (set_UserName (Ptr [98; 0; 111; 0; 98; 0; 0; 0])
            (set_TargetName (Ptr [97; 0; 0; 0])
               (set_Type 1
                  (set_CredentialBlob (Ptr [112; 0; 172; 32; 0; 0])
                     (set_CredentialBlobSize 4 zeroed))))).
  repeat split; vm_compute; reflexivity.
Qed.

(** A name with an embedded NUL is written whole, the secret with its exact
    size beside it, and the name reads back cut at the NUL. *)
Lemma name_with_NUL :
  let c_creds :=
    set_Comment (Ptr [104; 0; 0; 0; 105; 0; 0; 0])
      (set_CredentialBlob (Ptr [112; 0; 119; 0; 0; 0])
         (set_CredentialBlobSize 4 zeroed)) in
  CredWrite Example.windows
      {[ "Comment"%string := PyStr [104; 0; 105];
         "CredentialBlob"%string := PyStr [112; 119] ]} 0 [] =
    (inr tt, [Call_CredWrite c_creds 0]) /\
  Example.decoded c_creds !! "Comment"%string = Some (PyStr [104]).
Proof. intros c_creds. split; vm_compute; reflexivity. Qed.

(** The hypotheses on the secret of the example hold. *)
Lemma password_accepted :
  secret_text Example.windows (kernel32_GetACP Example.windows [])
    (PyStr Example.password) = Some Example.password /\
  accepted Example.windows (kernel32_GetACP Example.windows []) Example.credential /\
  Z.of_nat (length (utf_16_le Example.password)) < 2 ^ 32 /\
  Forall bmp Example.password.
Proof.
  split; [reflexivity|]. split; [apply (bool_decide_unpack _); vm_compute; exact I|].
  split; [vm_compute; reflexivity|].
  apply (bool_decide_unpack _). vm_compute. exact I.
Qed.

(** The secret of the spec, written as text: sixteen bytes, two per
    character, and no code page query. *)
Lemma password_blob :
  let c_creds :=
    set_UserName (Ptr [98; 0; 111; 0; 98; 0; 0; 0])
      (set_TargetName (Ptr [97; 0; 0; 0])
         (set_Type 1
            (set_CredentialBlob
               (Ptr [112; 0; 228; 0; 115; 0; 115; 0; 119; 0; 246; 0; 114; 0;
                     100; 0; 0; 0])
               (set_CredentialBlobSize 16 zeroed)))) in
  CredWrite Example.windows Example.credential 0 [] =
    (inr tt, [Call_CredWrite c_creds 0]) /\
  utf_16_le Example.password =
    [112; 0; 228; 0; 115; 0; 115; 0; 119; 0; 246; 0; 114; 0; 100; 0] /\
  c_CredentialBlobSize c_creds = 2 * Z.of_nat (length Example.password).
Proof. intros c_creds. repeat split; vm_compute; reflexivity. Qed.

(** A secret given as bytes: the code page is queried, the bytes are
    decoded under it (0x80 is the euro sign in code page 1252) and the text
    is encoded. *)
Lemma bytes_secret :
  let c_creds :=
    set_CredentialBlob (Ptr [112; 0; 172; 32; 0; 0])
      (set_CredentialBlobSize 4 zeroed) in
  CredWrite Example.windows {[ "CredentialBlob"%string := PyBytes [112; 128] ]} 0 [] =
    (inr tt, [Call_GetACP; Call_CredWrite c_creds 0]) /\
  Example.decoded c_creds !! "CredentialBlob"%string =
    Some (PyBytes (utf_16_le [112; 8364])).
Proof. intros c_creds. split; vm_compute; reflexivity. Qed.

(** Bytes that do not decode under the code page: the write raises after
    the code page query, and nothing is written. *)
Lemma undecodable_secret :
  CredWrite Example.windows {[ "CredentialBlob"%string := PyBytes [129] ]} 0 [] =
    (inl UnicodeDecodeError, [Call_GetACP]).
Proof. vm_compute. reflexivity. Qed.

(** A secret of 2^31 characters: its encoding has 2^32 bytes, and the size
    stored in the record is 0. *)
Lemma long_secret_size_wraps :
  let s := repeat 97 (Z.to_nat 2147483648) in
  let credential : gmap string pyval := {[ "CredentialBlob"%string := PyStr s ]} in
  dom credential ⊆ (list_to_set recognized_keys : gset string) /\
  exists c_creds,
    (CredWrite Example.windows credential 0 []).2 = [Call_CredWrite c_creds 0] /\
    Z.of_nat (length (utf_16_le s)) = 4294967296 /\
    c_CredentialBlobSize c_creds = 0 /\
    c_CredentialBlobSize c_creds <> Z.of_nat (length (utf_16_le s)).
Proof.
  intros s credential. split.
  { unfold credential. rewrite dom_singleton_L.
    intros k Hk%elem_of_singleton. subst k. apply elem_of_list_to_set.
    unfold recognized_keys. rewrite !elem_of_cons. tauto. }
  destruct (CredWrite_text_blob_size Example.windows s [] windows_keys)
    as (c_creds & Hh & Hsize).
  assert (Hlen : Z.of_nat (length (utf_16_le s)) = 4294967296).
  { rewrite length_utf_16_le, length_as_wide_char_bmp.
    - unfold s. rewrite repeat_length, Z2Nat.id; lia.
    - apply Forall_repeat. unfold bmp. lia. }
  rewrite Hlen in Hsize. change (DWORD 4294967296) with 0 in Hsize.
  exists c_creds. split; [exact Hh|]. split; [exact Hlen|].
  split; [exact Hsize|]. rewrite Hsize, Hlen. discriminate.
Qed.

End Win32credFacts.

(** ** More on the store operations

    The paths the properties above leave out: the outcome of a write that
    reaches the native primitive and of one that does not, the calls an
    operation can make, the failure of the native primitives, the result of
    the decoding whatever the order of the keys, and a write followed by a
    read. *)

Module StoreFacts.
Import Wide Ctypes Win32cred Codec WideFacts CodecFacts Win32credFacts.

(** X1. A write whose flag is 0, whose keys are recognized and whose values
    are all accepted by their fields calls the native write primitive once,
    with flag 0, after at most one code page query; it returns [None] when
    the primitive succeeds and raises the platform error, with the native
    error code and the name of the primitive, when it fails. *)
Theorem CredWrite_native_outcome (P : platform) credential h :
  SUPPORTED_CREDKEYS P ≡ₚ recognized_keys ->
  dom credential ⊆ (list_to_set recognized_keys : gset string) ->
  accepted P (kernel32_GetACP P h) credential ->
  exists c_creds qs,
    (qs = [] \/ qs = [Call_GetACP]) /\
    CredWrite P credential 0 h =
      (match advapi32_CredWrite P (h ++ qs) c_creds 0 with
       | inl winerror => inl (pywintypes_error winerror "CredWrite")
       | inr _ => inr tt
       end,
       h ++ qs ++ [Call_CredWrite c_creds 0]).
Proof.
  intros Hkeys Hdom Hacc.
  destruct (CredWrite_loop_spec P credential (kernel32_GetACP P h)
              (SUPPORTED_CREDKEYS P) zeroed h)
    as (c' & Hfold & _).
  { by apply keys_NoDup. }
  { intros k. by apply keys_recognized. }
  { done. }
  { intros k v _ Hv. specialize (Hacc k v Hv). unfold accepted_field in Hacc.
    destruct (encode_field P (kernel32_GetACP P h) k v) as [e|f]; [done|].
    by exists f. }
  exists c', (queries credential (SUPPORTED_CREDKEYS P)).
  split; [by apply queries_cases|].
  rewrite CredWrite_supported by done. cbn [Z.eqb negb].
  rewrite memset_zero. unfold bind. rewrite Hfold.
  unfold pywin32error, _CredWrite, native. rewrite <- app_assoc.
  by destruct (advapi32_CredWrite P (h ++ queries credential (SUPPORTED_CREDKEYS P)) c' 0)
    as [code|[]].
Qed.

Lemma accepted_example :
  accepted Example.windows (kernel32_GetACP Example.windows []) Example.credential.
Proof. apply (bool_decide_unpack _). vm_compute. exact I. Qed.

Lemma CredWrite_native_outcome_witness :
  exists c_creds qs,
    (qs = [] \/ qs = [Call_GetACP]) /\
    CredWrite (Example.with_answers (inl Example.ERROR_ACCESS_DENIED) (inl 0))
        Example.credential 0 [] =
      (match advapi32_CredWrite
               (Example.with_answers (inl Example.ERROR_ACCESS_DENIED) (inl 0))
               ([] ++ qs) c_creds 0 with
       | inl winerror => inl (pywintypes_error winerror "CredWrite")
       | inr _ => inr tt
       end,
       [] ++ qs ++ [Call_CredWrite c_creds 0]).
Proof.
  apply (CredWrite_native_outcome
           (Example.with_answers (inl Example.ERROR_ACCESS_DENIED) (inl 0))
           Example.credential []).
  - exact windows_keys.
  - exact credential_keys.
  - exact accepted_example.
Defined.

(** X2. A write with a value that its field does not accept (an integer
    field given text, a secret that is neither text nor decodable bytes)
    raises the exception of the encoding of one of the values of the
    credential, after at most one code page query, and does not call the
    native write primitive. *)
Theorem CredWrite_refused_value (P : platform) credential h key value :
  SUPPORTED_CREDKEYS P ≡ₚ recognized_keys ->
  dom credential ⊆ (list_to_set recognized_keys : gset string) ->
  credential !! key = Some value ->
  accepted_field P (kernel32_GetACP P h) key value = false ->
  exists e h' k v,
    CredWrite P credential 0 h = (inl e, h') /\
    (h' = h \/ h' = h ++ [Call_GetACP]) /\
    credential !! k = Some v /\
    encode_field P (kernel32_GetACP P h) k v = inl e.
Proof.
  intros Hkeys Hdom Hv Hrefused.
  destruct (CredWrite_loop_outcome P credential (kernel32_GetACP P h)
              (SUPPORTED_CREDKEYS P) zeroed h)
    as (Hh & Hexn & Hacc).
  { by apply keys_NoDup. }
  { intros k. by apply keys_recognized. }
  { done. }
  rewrite CredWrite_supported by done. cbn [Z.eqb negb].
  rewrite memset_zero. unfold bind.
  destruct (foldM (CredWrite_key P credential) zeroed (SUPPORTED_CREDKEYS P) h)
    as [[e|c'] h'] eqn:Hfold; cbn in Hh, Hexn, Hacc.
  - destruct (Hexn e eq_refl) as (k & v & _ & Hk & Hf).
    by exists e, h', k, v.
  - rewrite (Hacc c' eq_refl key value) in Hrefused; [done| |done].
    apply keys_recognized; [done|]. by eapply credential_key_recognized.
Qed.

Lemma CredWrite_refused_value_witness :
  exists e h' k v,
    CredWrite Example.windows
        (<["Type"%string := PyStr [120]]> Example.credential) 0 [] =
      (inl e, h') /\
    (h' = [] \/ h' = [] ++ [Call_GetACP]) /\
    <["Type"%string := PyStr [120]]> Example.credential !! k = Some v /\
    encode_field Example.windows (kernel32_GetACP Example.windows []) k v = inl e.
Proof.
  apply (CredWrite_refused_value Example.windows
           (<["Type"%string := PyStr [120]]> Example.credential) []
           "Type" (PyStr [120])).
  - exact windows_keys.
  - apply (bool_decide_unpack _). vm_compute. exact I.
  - vm_compute. reflexivity.
  - vm_compute. reflexivity.
Defined.

(** Text under Type: the write raises [TypeError] and calls nothing. *)
Lemma text_Type_refused :
  CredWrite Example.windows
      (<["Type"%string := PyStr [120]]> Example.credential) 0 [] =
    (inl TypeError, []).
Proof. vm_compute. reflexivity. Qed.

(** X4. Whatever the credential and the flag, a write calls nothing but the
    code page query and the native write primitive: at most one query, at
    most one write, the query first, and the write with flag 0. In
    particular it never reads, deletes, enumerates or releases. *)
Theorem CredWrite_calls (P : platform) credential flag h :
  SUPPORTED_CREDKEYS P ≡ₚ recognized_keys ->
  exists calls,
    (CredWrite P credential flag h).2 = h ++ calls /\
    (calls = [] \/ calls = [Call_GetACP] \/
     (exists c_creds, calls = [Call_CredWrite c_creds 0]) \/
     (exists c_creds, calls = [Call_GetACP; Call_CredWrite c_creds 0])).
Proof.
  intros Hkeys.
  destruct (decide (dom credential ∖ list_to_set (SUPPORTED_CREDKEYS P) = (∅ : gset string)))
    as [Hempty|Hne].
  - assert (Hdom : dom credential ⊆ (list_to_set recognized_keys : gset string)).
    { intros k Hk. rewrite <- (supported_set P Hkeys).
      destruct (decide (k ∈ (list_to_set (SUPPORTED_CREDKEYS P) : gset string)))
        as [Hin|Hout]; [done|].
      assert (Hd : k ∈ dom credential ∖ list_to_set (SUPPORTED_CREDKEYS P))
        by (by apply elem_of_difference).
      rewrite Hempty in Hd. by apply not_elem_of_empty in Hd. }
    rewrite CredWrite_supported by done.
    destruct (Z.eqb_spec flag 0) as [->|Hflag]; cbn [negb].
    + rewrite memset_zero. unfold bind.
      destruct (CredWrite_loop_outcome P credential (kernel32_GetACP P h)
                  (SUPPORTED_CREDKEYS P) zeroed h)
        as (Hh & _).
      { by apply keys_NoDup. }
      { intros k. by apply keys_recognized. }
      { done. }
      destruct (foldM (CredWrite_key P credential) zeroed (SUPPORTED_CREDKEYS P) h)
        as [[e|c'] h']; cbn in Hh.
      * destruct Hh as [->| ->].
        -- exists []. cbn. rewrite app_nil_r. split; [done | by left].
        -- exists [Call_GetACP]. split; [done | right; by left].
      * rewrite _CredWrite_call. destruct Hh as [->| ->].
        -- exists [Call_CredWrite c' 0]. split; [done|]. right; right; left.
           by exists c'.
        -- exists [Call_GetACP; Call_CredWrite c' 0].
           rewrite <- app_assoc. split; [done|]. right; right; right.
           by exists c'.
    + exists []. cbn. rewrite app_nil_r. split; [done | by left].
  - rewrite CredWrite_unsupported by done.
    exists []. cbn. rewrite app_nil_r. split; [done | by left].
Qed.

Lemma CredWrite_calls_witness :
  exists calls,
    (CredWrite Example.windows Example.credential 0 []).2 = [] ++ calls /\
    (calls = [] \/ calls = [Call_GetACP] \/
     (exists c_creds, calls = [Call_CredWrite c_creds 0]) \/
     (exists c_creds, calls = [Call_GetACP; Call_CredWrite c_creds 0])).
Proof.
  apply (CredWrite_calls Example.windows Example.credential 0 []).
  exact windows_keys.
Defined.

(** The loop of [_cred_as_dict], when it raises: the exception is the one
    of the reading of a field. *)
Lemma _cred_as_dict_loop_raises c :
  forall l (d0 : gmap string pyval) e,
  (forall k, k ∈ l -> k ∈ recognized_keys) ->
  Res.foldM (_cred_as_dict_key c) d0 l = inl e ->
  exists k f, k ∈ l /\ field_of c k = Some f /\ decode_field f = inl e.
Proof.
  induction l as [|k0 l IH]; intros d0 e Hrec He; [done|].
  cbn [Res.foldM] in He.
  destruct (_cred_as_dict_key_spec c d0 k0) as (f0 & Hf0 & Hstep);
    [apply Hrec; by left|].
  rewrite Hstep in He. destruct (decode_field f0) as [e0|v0] eqn:Hv0; cbn in He.
  - injection He as <-. exists k0, f0. split; [by left|]. done.
  - destruct (IH (<[k0 := v0]> d0) e) as (k & f & Hk & Hf & Hd);
      [intros k Hk; apply Hrec; by right | done |].
    exists k, f. split; [by right|]. done.
Qed.

(** X5. When the three names and the blob of a record can be read,
    [_cred_as_dict] returns the mapping of the six recognized keys to the
    Type and Persist of the record, the three names and the blob, whatever
    the order in which the keys are iterated. *)
Theorem _cred_as_dict_returns (P : platform) c name user comment blob :
  SUPPORTED_CREDKEYS P ≡ₚ recognized_keys ->
  getattr c "TargetName" = inr name ->
  getattr c "UserName" = inr user ->
  getattr c "Comment" = inr comment ->
  _PyBytes_FromStringAndSize (c_CredentialBlob c) (c_CredentialBlobSize c) = inr blob ->
  _cred_as_dict P c =
    inr {[ "Type"%string := PyInt (c_Type c);
           "TargetName"%string := name;
           "Persist"%string := PyInt (c_Persist c);
           "UserName"%string := user;
           "CredentialBlob"%string := blob;
           "Comment"%string := comment ]}.
Proof.
  intros Hkeys Hname Huser Hcomment Hblob.
  assert (Hread : forall k, k ∈ recognized_keys ->
    exists f v, field_of c k = Some f /\ decode_field f = inr v /\
      ({[ "Type"%string := PyInt (c_Type c);
          "TargetName"%string := name;
          "Persist"%string := PyInt (c_Persist c);
          "UserName"%string := user;
          "CredentialBlob"%string := blob;
          "Comment"%string := comment ]} : gmap string pyval) !! k = Some v).
  { intros k Hk. each_key Hk; eexists _, _; (split; [reflexivity|]);
      (split; [first [reflexivity | eassumption]|]); by simplify_map_eq. }
  destruct (_cred_as_dict_loop_returns c (SUPPORTED_CREDKEYS P) ∅) as [d Hd].
  { intros k. by apply keys_recognized. }
  { intros k f Hk%(keys_recognized P k Hkeys) Hf.
    destruct (Hread k Hk) as (f' & v & Hf' & Hv & _).
    exists v. congruence. }
  unfold _cred_as_dict. rewrite Hd. f_equal.
  destruct (_cred_as_dict_loop_spec c (SUPPORTED_CREDKEYS P) ∅ d) as (_ & Hin & Hout).
  { intros k. by apply keys_recognized. }
  { exact Hd. }
  apply map_eq. intros k.
  destruct (decide (k ∈ recognized_keys)) as [Hk|Hk].
  - destruct (Hin k) as (f & v & Hf & Hv & Hlook); [by apply keys_recognized|].
    destruct (Hread k Hk) as (f' & v' & Hf' & Hv' & Hlook').
    rewrite Hlook, Hlook'. congruence.
  - rewrite Hout by (by rewrite keys_recognized).
    rewrite lookup_empty. symmetry.
    unfold recognized_keys in Hk. rewrite !not_elem_of_cons in Hk.
    destruct Hk as (? & ? & ? & ? & ? & ? & _).
    by rewrite !lookup_insert_ne, lookup_singleton_ne by done.
Qed.

Lemma _cred_as_dict_returns_witness :
  _cred_as_dict Example.vault (Example.stored 1 [97]) =
    inr {[ "Type"%string := PyInt (c_Type (Example.stored 1 [97]));
           "TargetName"%string := PyStr [97];
           "Persist"%string := PyInt (c_Persist (Example.stored 1 [97]));
           "UserName"%string := PyStr [98; 111; 98];
           "CredentialBlob"%string := PyBytes [112; 0; 119; 0];
           "Comment"%string := PyNone ]}.
Proof.
  apply (_cred_as_dict_returns Example.vault (Example.stored 1 [97])).
  - apply (bool_decide_unpack _). vm_compute. exact I.
  - vm_compute. reflexivity.
  - vm_compute. reflexivity.
  - vm_compute. reflexivity.
  - vm_compute. reflexivity.
Defined.

(** X6. [_cred_as_dict] raises exactly when the reading of one of the three
    names or of the blob raises, and the exception is then the one of such a
    reading; Type and Persist are always read. *)
Theorem _cred_as_dict_raises (P : platform) c :
  SUPPORTED_CREDKEYS P ≡ₚ recognized_keys ->
  (forall e, _cred_as_dict P c = inl e ->
     getattr c "TargetName" = inl e \/ getattr c "UserName" = inl e \/
     getattr c "Comment" = inl e \/
     _PyBytes_FromStringAndSize (c_CredentialBlob c) (c_CredentialBlobSize c) = inl e) /\
  (forall e,
     getattr c "TargetName" = inl e \/ getattr c "UserName" = inl e \/
     getattr c "Comment" = inl e \/
     _PyBytes_FromStringAndSize (c_CredentialBlob c) (c_CredentialBlobSize c) = inl e ->
     exists e', _cred_as_dict P c = inl e').
Proof.
  intros Hkeys. split.
  - intros e He.
    destruct (_cred_as_dict_loop_raises c (SUPPORTED_CREDKEYS P) ∅ e)
      as (k & f & Hk & Hf & Hd).
    { intros k. by apply keys_recognized. }
    { exact He. }
    apply (keys_recognized P k Hkeys) in Hk.
    each_key Hk; cbn in Hf; injection Hf as <-; cbn in Hd; try discriminate; tauto.
  - intros e Hfail.
    destruct (_cred_as_dict P c) as [e'|d] eqn:Hd; [by exists e'|].
    destruct (_cred_as_dict_loop_spec c (SUPPORTED_CREDKEYS P) ∅ d) as (_ & Hin & _).
    { intros k. by apply keys_recognized. }
    { exact Hd. }
    assert (Hread : forall k, k ∈ recognized_keys ->
      exists f v, field_of c k = Some f /\ decode_field f = inr v).
    { intros k Hk. destruct (Hin k) as (f & v & Hf & Hv & _);
        [by apply keys_recognized|]. by exists f, v. }
    destruct Hfail as [Hf|[Hf|[Hf|Hf]]].
    + destruct (Hread "TargetName"%string) as (f & v & Hfo & Hv);
        [unfold recognized_keys; rewrite !elem_of_cons; tauto|].
      cbn in Hfo. injection Hfo as <-. cbn in Hv, Hf. congruence.
    + destruct (Hread "UserName"%string) as (f & v & Hfo & Hv);
        [unfold recognized_keys; rewrite !elem_of_cons; tauto|].
      cbn in Hfo. injection Hfo as <-. cbn in Hv, Hf. congruence.
    + destruct (Hread "Comment"%string) as (f & v & Hfo & Hv);
        [unfold recognized_keys; rewrite !elem_of_cons; tauto|].
      cbn in Hfo. injection Hfo as <-. cbn in Hv, Hf. congruence.
    + destruct (Hread "CredentialBlob"%string) as (f & v & Hfo & Hv);
        [apply blob_recognized|].
      cbn in Hfo. injection Hfo as <-. cbn in Hv. congruence.
Qed.

Lemma _cred_as_dict_raises_witness :
  (forall e, _cred_as_dict Example.windows Example.malformed = inl e ->
     getattr Example.malformed "TargetName" = inl e \/
     getattr Example.malformed "UserName" = inl e \/
     getattr Example.malformed "Comment" = inl e \/
     _PyBytes_FromStringAndSize (c_CredentialBlob Example.malformed)
       (c_CredentialBlobSize Example.malformed) = inl e) /\
  (forall e,
     getattr Example.malformed "TargetName" = inl e \/
     getattr Example.malformed "UserName" = inl e \/
     getattr Example.malformed "Comment" = inl e \/
     _PyBytes_FromStringAndSize (c_CredentialBlob Example.malformed)
       (c_CredentialBlobSize Example.malformed) = inl e ->
     exists e', _cred_as_dict Example.windows Example.malformed = inl e').
Proof.
  apply (_cred_as_dict_raises Example.windows Example.malformed).
  exact windows_keys.
Defined.

(** A record is determined by the fields of the six keys and the fields no
    key stands for. *)
Lemma record_ext c c' :
  (forall k, k ∈ recognized_keys -> field_of c k = field_of c' k) ->
  untouched c = untouched c' ->
  c = c'.
Proof.
  intros Hfields Hunt. unfold recognized_keys in Hfields.
  pose proof (Hfields "Type"%string ltac:(rewrite !elem_of_cons; tauto)) as H1.
  pose proof (Hfields "TargetName"%string ltac:(rewrite !elem_of_cons; tauto)) as H2.
  pose proof (Hfields "Persist"%string ltac:(rewrite !elem_of_cons; tauto)) as H3.
  pose proof (Hfields "UserName"%string ltac:(rewrite !elem_of_cons; tauto)) as H4.
  pose proof (Hfields "CredentialBlob"%string ltac:(rewrite !elem_of_cons; tauto)) as H5.
  pose proof (Hfields "Comment"%string ltac:(rewrite !elem_of_cons; tauto)) as H6.
  destruct c, c'. cbn in *. unfold untouched in Hunt. cbn in Hunt.
  congruence.
Qed.

(** The encoding of a value depends on the platform through its codec
    only. *)
Lemma encode_field_ext (P P' : platform) cp key value :
  (forall b, codec_decode P cp b = codec_decode P' cp b) ->
  encode_field P cp key value = encode_field P' cp key value.
Proof.
  intros Hcodec. unfold encode_field, unicode.
  destruct (String.eqb key "CredentialBlob"); [|reflexivity].
  destruct value; try reflexivity. cbn. by rewrite Hcodec.
Qed.

(** X3. The record a write hands to the native write primitive, and the
    calls before it, do not depend on the order in which the supported keys
    are iterated: when a write reaches the primitive, the write on a platform
    that iterates the keys in another order, and agrees on the code page and
    on its codec, reaches it with the same record after the same calls. *)
Theorem CredWrite_order_independent (P P' : platform) credential h calls c_creds :
  SUPPORTED_CREDKEYS P ≡ₚ recognized_keys ->
  SUPPORTED_CREDKEYS P' ≡ₚ recognized_keys ->
  dom credential ⊆ (list_to_set recognized_keys : gset string) ->
  kernel32_GetACP P' h = kernel32_GetACP P h ->
  (forall b, codec_decode P (kernel32_GetACP P h) b =
             codec_decode P' (kernel32_GetACP P h) b) ->
  (CredWrite P credential 0 h).2 = h ++ calls ++ [Call_CredWrite c_creds 0] ->
  (CredWrite P' credential 0 h).2 = h ++ calls ++ [Call_CredWrite c_creds 0].
Proof.
  intros Hkeys Hkeys' Hdom Hcp Hcodec Hwrite.
  destruct (CredWrite_write_called P credential h
              (calls ++ [Call_CredWrite c_creds 0]) c_creds 0 Hkeys Hdom Hwrite)
    as (_ & _ & Hacc).
  { apply elem_of_app. right. by left. }
  assert (Hok : forall k v, credential !! k = Some v ->
    exists f, encode_field P (kernel32_GetACP P h) k v = inr f).
  { intros k v Hv. specialize (Hacc k v Hv). unfold accepted_field in Hacc.
    destruct (encode_field P (kernel32_GetACP P h) k v) as [e|f]; [done|].
    by exists f. }
  destruct (CredWrite_encodes P credential h Hkeys Hdom Hok)
    as (c1 & Hh1 & Hset1 & Hkeep1 & Hunt1).
  destruct (CredWrite_encodes P' credential h Hkeys' Hdom)
    as (c2 & Hh2 & Hset2 & Hkeep2 & Hunt2).
  { intros k v Hv. rewrite Hcp, <- (encode_field_ext P P') by done. by apply Hok. }
  assert (c2 = c1) as ->.
  { apply record_ext; [|congruence]. intros k Hk.
    destruct (credential !! k) as [v|] eqn:Hv.
    - destruct (Hset1 k v Hv) as (f1 & Hf1 & ->).
      destruct (Hset2 k v Hv) as (f2 & Hf2 & ->).
      rewrite Hcp, <- (encode_field_ext P P') in Hf2 by done. congruence.
    - by rewrite Hkeep1, Hkeep2. }
  rewrite Hh2, queries_order by done.
  rewrite <- (queries_order P) by done. by rewrite <- Hh1.
Qed.

Lemma vault_keys : SUPPORTED_CREDKEYS Example.vault ≡ₚ recognized_keys.
Proof. apply (bool_decide_unpack _). vm_compute. exact I. Qed.

Lemma CredWrite_order_independent_witness :
  let c_creds :=
    set_UserName (Ptr [98; 0; 111; 0; 98; 0; 0; 0])
      (set_TargetName (Ptr [97; 0; 0; 0])
         (set_Type 1
            (set_CredentialBlob
               (Ptr [112; 0; 228; 0; 115; 0; 115; 0; 119; 0; 246; 0; 114; 0;
                     100; 0; 0; 0])
               (set_CredentialBlobSize 16 zeroed)))) in
  (CredWrite Example.windows Example.credential 0 []).2 =
    [] ++ [] ++ [Call_CredWrite c_creds 0].
Proof.
  intros c_creds.
  apply (CredWrite_order_independent Example.vault Example.windows
           Example.credential [] [] c_creds).
  - exact vault_keys.
  - exact windows_keys.
  - exact credential_keys.
  - reflexivity.
  - reflexivity.
  - vm_compute. reflexivity.
Defined.

(** X7. When the native read, or the native enumeration, fails, the call
    raises the platform error with the native error code and the name of the
    primitive; nothing was returned, and nothing is released. *)
Theorem native_failure_raises (P : platform)
    TargetName h winerror Filter Flags h' winerror' :
  advapi32_CredRead P h TargetName CRED_TYPE_GENERIC 0 = inl winerror ->
  advapi32_CredEnumerate P h' Filter Flags = inl winerror' ->
  CredRead P TargetName CRED_TYPE_GENERIC h =
    (inl (pywintypes_error winerror "CredRead"),
     h ++ [Call_CredRead TargetName CRED_TYPE_GENERIC 0]) /\
  CredEnumerate P Filter Flags h' =
    (inl (pywintypes_error winerror' "CredEnumerate"),
     h' ++ [Call_CredEnumerate Filter Flags]).
Proof.
  intros Hread Henum. split.
  - unfold CredRead. rewrite Z.eqb_refl. cbn [negb]. cbv zeta.
    unfold bind, pywin32error, _CredRead, native. by rewrite Hread.
  - unfold CredEnumerate, bind, pywin32error, _CredEnumerate, native.
    by rewrite Henum.
Qed.

Lemma native_failure_raises_witness :
  CredRead Example.vault [120] CRED_TYPE_GENERIC [] =
    (inl (pywintypes_error Example.ERROR_NOT_FOUND "CredRead"),
     [] ++ [Call_CredRead [120] CRED_TYPE_GENERIC 0]) /\
  CredEnumerate Example.vault None 0 [] =
    (inl (pywintypes_error Example.ERROR_NOT_FOUND "CredEnumerate"),
     [] ++ [Call_CredEnumerate None 0]).
Proof.
  apply (native_failure_raises Example.vault [120] [] Example.ERROR_NOT_FOUND
           None 0 [] Example.ERROR_NOT_FOUND).
  - reflexivity.
  - reflexivity.
Defined.

(** X8. A delete of the generic type calls the native delete primitive
    once, with the target name, the type and flag 0, and nothing else; it
    returns [None] when the primitive succeeds and raises the platform error
    with the native error code when it fails. *)
Theorem CredDelete_outcome (P : platform) TargetName Type_ h :
  Type_ = CRED_TYPE_GENERIC ->
  CredDelete P TargetName Type_ h =
    (match advapi32_CredDelete P h TargetName CRED_TYPE_GENERIC 0 with
     | inl winerror => inl (pywintypes_error winerror "CredDelete")
     | inr _ => inr tt
     end,
     h ++ [Call_CredDelete TargetName CRED_TYPE_GENERIC 0]).
Proof.
  intros ->. unfold CredDelete. rewrite Z.eqb_refl. cbn [negb].
  unfold pywin32error, _CredDelete, native.
  by destruct (advapi32_CredDelete P h TargetName CRED_TYPE_GENERIC 0) as [code|[]].
Qed.

Lemma CredDelete_outcome_witness :
  CredDelete Example.windows [120] 1 [] =
    (match advapi32_CredDelete Example.windows [] [120] CRED_TYPE_GENERIC 0 with
     | inl winerror => inl (pywintypes_error winerror "CredDelete")
     | inr _ => inr tt
     end,
     [] ++ [Call_CredDelete [120] CRED_TYPE_GENERIC 0]).
Proof.
  apply (CredDelete_outcome Example.windows [120] 1 []). reflexivity.
Defined.

(** The comprehension of [CredEnumerate] reads the array at the indices
    below the count only. *)
Lemma mapM_decode_at_counted (P : platform) pre counted rest :
  Res.mapM (decode_at P (Some (pre ++ counted ++ rest)))
    (seq (length pre) (length counted)) =
  Res.mapM (fun p => Res.bind (contents p) (_cred_as_dict P)) counted.
Proof.
  revert pre. induction counted as [|p counted IH]; intros pre; [reflexivity|].
  cbn [length seq Res.mapM]. unfold decode_at at 1. cbn [index].
  rewrite <- app_comm_cons, list_lookup_middle by done. cbn [Res.bind].
  specialize (IH (pre ++ [p])). rewrite <- app_assoc, length_app in IH.
  cbn [app length] in IH. rewrite Nat.add_1_r in IH. by rewrite IH.
Qed.

(** X9. An enumeration decodes the records below the count and no other:
    when those decode, it returns the generic ones among them, in order,
    whatever follows them in the array, readable or not. *)
Theorem CredEnumerate_decodes_counted (P : platform) Filter Flags h counted rest creds :
  SUPPORTED_CREDKEYS P ≡ₚ recognized_keys ->
  advapi32_CredEnumerate P h Filter Flags =
    inr (Z.of_nat (length counted), Some (counted ++ rest)) ->
  Forall2 (fun p cred => Res.bind (contents p) (_cred_as_dict P) = inr cred)
    counted creds ->
  CredEnumerate P Filter Flags h =
    (inr (List.filter generic creds),
     h ++ [Call_CredEnumerate Filter Flags;
           Call_CredFree (Array_at (Some (counted ++ rest)))]).
Proof.
  intros Hkeys Hnative Hall.
  unfold CredEnumerate, bind, pywin32error, _CredEnumerate, native.
  rewrite Hnative. cbn -[Res.mapM Res.filterM seq Z.to_nat].
  unfold try_finally, lift, _CredFree.
  rewrite Nat2Z.id. pose proof (mapM_decode_at_counted P [] counted rest) as Hm.
  cbn [app length] in Hm. rewrite Hm. clear Hm.
  apply mapM_Forall2 in Hall as Hmap. rewrite Hmap.
  rewrite (filterM_total _ generic).
  - by rewrite <- app_assoc.
  - clear Hmap Hnative.
    induction Hall as [|p d arr' creds' Hd _ IH]; constructor.
    + exact (is_generic_decoded P p d Hkeys Hd).
    + apply IH.
Qed.

Lemma CredEnumerate_decodes_counted_witness :
  let P := Example.with_answers (inr tt)
             (inr (1, Some [Some (Example.stored 1 [97]); Some Example.malformed; None])) in
  CredEnumerate P None 0 [] =
    (inr (List.filter generic [Example.decoded (Example.stored 1 [97])]),
     [] ++ [Call_CredEnumerate None 0;
            Call_CredFree
              (Array_at (Some ([Some (Example.stored 1 [97])]
                               ++ [Some Example.malformed; None])))]).
Proof.
  intros P.
  apply (CredEnumerate_decodes_counted P None 0 []
           [Some (Example.stored 1 [97])] [Some Example.malformed; None]
           [Example.decoded (Example.stored 1 [97])]).
  - exact windows_keys.
  - reflexivity.
  - apply Forall2_cons_2; [|apply Forall2_nil_2].
    reflexivity.
Defined.

(** X10. An enumeration whose count is 0 returns the empty list, whatever
    the array pointer, NULL included, and still releases it once. *)
Theorem CredEnumerate_empty (P : platform) Filter Flags h c_ppcreds :
  advapi32_CredEnumerate P h Filter Flags = inr (0, c_ppcreds) ->
  CredEnumerate P Filter Flags h =
    (inr [],
     h ++ [Call_CredEnumerate Filter Flags; Call_CredFree (Array_at c_ppcreds)]).
Proof.
  intros Hnative.
  unfold CredEnumerate, bind, pywin32error, _CredEnumerate, native.
  rewrite Hnative. cbn. unfold try_finally, lift, _CredFree. cbn.
  by rewrite <- app_assoc.
Qed.

Lemma CredEnumerate_empty_witness :
  CredEnumerate (Example.with_answers (inr tt) (inr (0, None))) None 0 [] =
    (inr [], [] ++ [Call_CredEnumerate None 0; Call_CredFree (Array_at None)]).
Proof.
  apply (CredEnumerate_empty (Example.with_answers (inr tt) (inr (0, None)))
           None 0 [] None).
  reflexivity.
Defined.

Lemma generic_Type d : generic d = true -> d !! "Type"%string = Some (PyInt 1).
Proof.
  unfold generic. destruct (d !! "Type"%string) as [[]|]; try discriminate.
  intros Hz%Z.eqb_eq. by rewrite Hz.
Qed.

Lemma mapM_length {A B} (f : A -> exn + B) l ys :
  Res.mapM f l = inr ys -> length ys = length l.
Proof.
  intros H%mapM_Forall2. induction H; cbn; congruence.
Qed.

(** X11. Every credential an enumeration returns holds the generic type 1
    under Type, and there are no more of them than the native count. *)
Theorem CredEnumerate_returns_generic (P : platform) Filter Flags h kept h' :
  SUPPORTED_CREDKEYS P ≡ₚ recognized_keys ->
  CredEnumerate P Filter Flags h = (inr kept, h') ->
  Forall (fun cred => cred !! "Type"%string = Some (PyInt CRED_TYPE_GENERIC)) kept /\
  exists c_count c_ppcreds,
    advapi32_CredEnumerate P h Filter Flags = inr (c_count, c_ppcreds) /\
    (length kept <= Z.to_nat c_count)%nat.
Proof.
  intros Hkeys Henum.
  unfold CredEnumerate, bind, pywin32error, _CredEnumerate, native in Henum.
  destruct (advapi32_CredEnumerate P h Filter Flags) as [code|[c_count c_ppcreds]];
    [done|].
  cbn -[Res.mapM Res.filterM seq Z.to_nat] in Henum.
  unfold try_finally, lift, _CredFree in Henum.
  destruct (Res.mapM (decode_at P c_ppcreds) (seq 0 (Z.to_nat c_count)))
    as [e|creds] eqn:Hcreds; [done|].
  assert (Hgen : Forall (fun d => is_generic d = inr (generic d)) creds).
  { clear Henum. apply mapM_Forall2 in Hcreds.
    induction Hcreds as [|i d l creds' Hd _ IH]; [constructor|].
    constructor; [|exact IH]. unfold decode_at in Hd.
    destruct (index c_ppcreds i) as [e|p]; [done|]. cbn in Hd.
    exact (is_generic_decoded P p d Hkeys Hd). }
  rewrite (filterM_total _ generic) in Henum by done.
  injection Henum as <- _. split.
  - apply Forall_forall. intros d Hd%list_elem_of_In.
    apply filter_In in Hd as [_ Hd]. by apply generic_Type.
  - exists c_count, c_ppcreds. split; [done|].
    apply mapM_length in Hcreds. rewrite length_seq in Hcreds.
    pose proof (List.filter_length_le generic creds) as Hle. lia.
Qed.

Lemma CredEnumerate_returns_generic_witness :
  Forall (fun cred => cred !! "Type"%string = Some (PyInt CRED_TYPE_GENERIC))
    [Example.decoded (Example.stored 1 [97]); Example.decoded (Example.stored 1 [99])] /\
  exists c_count c_ppcreds,
    advapi32_CredEnumerate Example.windows [] None 0 = inr (c_count, c_ppcreds) /\
    (length [Example.decoded (Example.stored 1 [97%Z]);
             Example.decoded (Example.stored 1 [99%Z])] <= Z.to_nat c_count)%nat.
Proof.
  apply (CredEnumerate_returns_generic Example.windows None 0 []
           [Example.decoded (Example.stored 1 [97]);
            Example.decoded (Example.stored 1 [99])]
           [Call_CredEnumerate None 0;
            Call_CredFree (Array_at (Some [Some (Example.stored 1 [97]);
                                           Some (Example.stored 2 [98]);
                                           Some (Example.stored 1 [99])]))]).
  - exact windows_keys.
  - reflexivity.
Defined.

(** The record written for a credential whose values fit the native fields
    decodes to the fields of the credential. *)
Lemma written_record_decodes (P : platform) credential h :
  SUPPORTED_CREDKEYS P ≡ₚ recognized_keys ->
  dom credential ⊆ (list_to_set recognized_keys : gset string) ->
  fits P (kernel32_GetACP P h) credential ->
  exists c_creds d,
    (CredWrite P credential 0 h).2 =
      h ++ queries credential (SUPPORTED_CREDKEYS P) ++ [Call_CredWrite c_creds 0] /\
    _cred_as_dict P c_creds = inr d /\
    forall key, key ∈ recognized_keys ->
      d !! key =
        Some (match credential !! key with
              | Some value => round_trip P (kernel32_GetACP P h) key value
              | None => default key
              end).
Proof.
  intros Hkeys Hdom Hfits.
  set (cp := kernel32_GetACP P h) in *.
  assert (Hfield : forall k v, credential !! k = Some v ->
    exists f, encode_field P cp k v = inr f /\
      decode_field f = inr (round_trip P cp k v)).
  { intros k v Hv. apply field_round_trip;
      [by eapply credential_key_recognized | exact (Hfits k v Hv)]. }
  destruct (CredWrite_encodes P credential h Hkeys Hdom)
    as (c' & Hh & Hset & Hkeep & _).
  { intros k v Hv. destruct (Hfield k v Hv) as (f & Hf & _). by exists f. }
  fold cp in Hset.
  assert (Hdec : forall k, k ∈ recognized_keys ->
    exists f, field_of c' k = Some f /\
      decode_field f =
        inr (match credential !! k with
             | Some value => round_trip P cp k value
             | None => default k
             end)).
  { intros k Hk. destruct (credential !! k) as [v|] eqn:Hv.
    - destruct (Hset k v Hv) as (f & Hf & Hfo).
      destruct (Hfield k v Hv) as (f' & Hf' & Hd).
      exists f. split; [done|]. congruence.
    - rewrite (Hkeep k Hv). by apply zeroed_field. }
  destruct (_cred_as_dict_loop_returns c' (SUPPORTED_CREDKEYS P) ∅) as [d Hd].
  { intros k. by apply keys_recognized. }
  { intros k f Hk%(keys_recognized P k Hkeys) Hf.
    destruct (Hdec k Hk) as (f' & Hf' & Hv). eexists.
    by replace f with f' by congruence. }
  exists c', d. split; [exact Hh|]. split; [exact Hd|].
  destruct (_cred_as_dict_loop_spec c' (SUPPORTED_CREDKEYS P) ∅ d) as (_ & Hin & _).
  { intros k. by apply keys_recognized. }
  { exact Hd. }
  intros k Hk. destruct (Hin k) as (f & v & Hf & Hv & Hlook);
    [by apply keys_recognized|].
  destruct (Hdec k Hk) as (f' & Hf' & Hv'). rewrite Hlook. congruence.
Qed.

(** X12. A write followed by a read: when the store answers the read with
    the record the write handed it, the read returns, for every key of a
    credential whose values fit the native fields, the value written, the
    secret as the UTF-16LE bytes of its text, and the defaults for the other
    recognized keys; it releases the record once. *)
Theorem CredRead_after_CredWrite (P : platform)
    credential h calls c_creds TargetName h' :
  SUPPORTED_CREDKEYS P ≡ₚ recognized_keys ->
  dom credential ⊆ (list_to_set recognized_keys : gset string) ->
  fits P (kernel32_GetACP P h) credential ->
  (CredWrite P credential 0 h).2 = calls ++ [Call_CredWrite c_creds 0] ->
  advapi32_CredRead P h' TargetName CRED_TYPE_GENERIC 0 = inr (Some c_creds) ->
  exists d,
    CredRead P TargetName CRED_TYPE_GENERIC h' =
      (inr d,
       h' ++ [Call_CredRead TargetName CRED_TYPE_GENERIC 0;
              Call_CredFree (Record_at (Some c_creds))]) /\
    (forall key value, credential !! key = Some value ->
       d !! key = Some (round_trip P (kernel32_GetACP P h) key value)) /\
    (forall key, key ∈ recognized_keys -> credential !! key = None ->
       d !! key = Some (default key)).
Proof.
  intros Hkeys Hdom Hfits Hwrite Hread.
  destruct (written_record_decodes P credential h Hkeys Hdom Hfits)
    as (c' & d & Hh & Hd & Hlook).
  rewrite Hh, app_assoc in Hwrite.
  apply app_inj_tail in Hwrite as [_ [= ->]].
  exists d. split; [|split].
  - unfold CredRead. rewrite Z.eqb_refl. cbn [negb]. cbv zeta.
    unfold bind, pywin32error, _CredRead, native. rewrite Hread.
    cbn -[_cred_as_dict]. unfold try_finally, lift, _CredFree.
    cbn -[_cred_as_dict]. by rewrite Hd, <- app_assoc.
  - intros key value Hv.
    rewrite Hlook by (by eapply credential_key_recognized). by rewrite Hv.
  - intros key Hk Hv. rewrite Hlook by done. by rewrite Hv.
Qed.

Lemma fits_vault :
  fits Example.vault (kernel32_GetACP Example.vault []) Example.credential.
Proof. apply (bool_decide_unpack _). vm_compute. exact I. Qed.

Lemma CredRead_after_CredWrite_witness :
  let c_creds :=
    set_UserName (Ptr [98; 0; 111; 0; 98; 0; 0; 0])
      (set_TargetName (Ptr [97; 0; 0; 0])
         (set_Type 1
            (set_CredentialBlob
               (Ptr [112; 0; 228; 0; 115; 0; 115; 0; 119; 0; 246; 0; 114; 0;
                     100; 0; 0; 0])
               (set_CredentialBlobSize 16 zeroed)))) in
  exists d,
    CredRead Example.vault [97] CRED_TYPE_GENERIC [Call_CredWrite c_creds 0] =
      (inr d,
       [Call_CredWrite c_creds 0]
         ++ [Call_CredRead [97] CRED_TYPE_GENERIC 0;
             Call_CredFree (Record_at (Some c_creds))]) /\
    (forall key value, Example.credential !! key = Some value ->
       d !! key =
         Some (round_trip Example.vault (kernel32_GetACP Example.vault []) key value)) /\
    (forall key, key ∈ recognized_keys -> Example.credential !! key = None ->
       d !! key = Some (default key)).
Proof.
  intros c_creds.
  apply (CredRead_after_CredWrite Example.vault Example.credential []
           [] c_creds [97] [Call_CredWrite c_creds 0]).
  - exact vault_keys.
  - exact credential_keys.
  - exact fits_vault.
  - reflexivity.
  - reflexivity.
Defined.

Lemma mapM_raises {A B} (f : A -> exn + B) l x e :
  x ∈ l -> f x = inl e -> exists e', Res.mapM f l = inl e'.
Proof.
  intros Hx Hfx. induction l as [|y l IH]; [by apply elem_of_nil in Hx|].
  cbn. destruct (f y) as [e0|b] eqn:Hy; cbn; [by exists e0|].
  apply elem_of_cons in Hx as [->|Hx]; [congruence|].
  destruct (IH Hx) as [e' ->]. by exists e'.
Qed.

(** X13. An enumeration returns no partial result: when one of the records
    below the count does not decode, whatever its Type, the call raises, and
    the array has been released once. *)
Theorem CredEnumerate_no_partial_result (P : platform) Filter Flags h arr p e :
  advapi32_CredEnumerate P h Filter Flags = inr (Z.of_nat (length arr), Some arr) ->
  p ∈ arr ->
  Res.bind (contents p) (_cred_as_dict P) = inl e ->
  exists e',
    CredEnumerate P Filter Flags h =
      (inl e',
       h ++ [Call_CredEnumerate Filter Flags; Call_CredFree (Array_at (Some arr))]).
Proof.
  intros Hnative Hp He.
  unfold CredEnumerate, bind, pywin32error, _CredEnumerate, native.
  rewrite Hnative. cbn -[Res.mapM Res.filterM seq Z.to_nat].
  unfold try_finally, lift, _CredFree.
  rewrite Nat2Z.id. pose proof (mapM_decode_at P [] arr) as Hm.
  cbn [app length] in Hm. rewrite Hm. clear Hm.
  destruct (mapM_raises
              (fun p => Res.bind (contents p) (_cred_as_dict P)) arr p e Hp He)
    as [e' ->].
  exists e'. by rewrite <- app_assoc.
Qed.

Lemma CredEnumerate_no_partial_result_witness :
  exists e',
    CredEnumerate Example.windows (Some []) 0 [] =
      (inl e',
       [] ++ [Call_CredEnumerate (Some []) 0;
              Call_CredFree
                (Array_at (Some [Some (Example.stored 2 [98]);
                                 Some Example.malformed]))]).
Proof.
  apply (CredEnumerate_no_partial_result Example.windows (Some []) 0 []
           [Some (Example.stored 2 [98]); Some Example.malformed]
           (Some Example.malformed) AccessViolation).
  - reflexivity.
  - right. left.
  - vm_compute. reflexivity.
Defined.

End StoreFacts.
